(** * PicPuzzle: a shallow embedding of the grid model, the region editor,
    the exporter geometry and the state manager, with the properties of
    its specification. *)

From Stdlib Require Import ZArith List String Ascii Bool Lia Permutation DecimalString.
Import ListNotations.
Open Scope Z_scope.
Open Scope list_scope.
Set Warnings "-register-all".

(* ================================================================== *)
(** ** JSON values, as [json.load] returns them *)

(** Numbers are integers (the documents written by [save_state] hold no
    floats); objects keep the order of their keys, which [json.load]
    returns without duplicates. *)
Inductive json : Type :=
| JNull
| JBool (b : bool)
| JInt (z : Z)
| JStr (s : string)
| JArr (l : list json)
| JObj (kvs : list (string * json)).

(** Python's [==] on such values: [True == 1], [False == 0], lists
    element-wise, dicts regardless of key order. *)
Fixpoint json_eqb (a b : json) {struct a} : bool :=
  let fix list_eqb (xs ys : list json) : bool :=
    match xs, ys with
    | [], [] => true
    | x :: xs', y :: ys' => json_eqb x y && list_eqb xs' ys'
    | _, _ => false
    end in
  let fix obj_sub (xs : list (string * json)) (ys : list (string * json)) : bool :=
    match xs with
    | [] => true
    | (k, v) :: xs' =>
        match find (fun kv => String.eqb (fst kv) k) ys with
        | Some (_, w) => json_eqb v w && obj_sub xs' ys
        | None => false
        end
    end in
  match a, b with
  | JNull, JNull => true
  | JBool x, JBool y => Bool.eqb x y
  | JInt x, JInt y => Z.eqb x y
  | JBool x, JInt y => Z.eqb (if x then 1 else 0) y
  | JInt x, JBool y => Z.eqb x (if y then 1 else 0)
  | JStr x, JStr y => String.eqb x y
  | JArr xs, JArr ys => list_eqb xs ys
  | JObj xs, JObj ys => Nat.eqb (List.length xs) (List.length ys) && obj_sub xs ys
  | _, _ => false
  end.

(** [d.get(k, default)] on a dict; on any other value Python raises
    [AttributeError] (result [None] here). *)
Definition json_get (d : json) (k : string) (default : json) : option json :=
  match d with
  | JObj kvs =>
      match find (fun kv => String.eqb (fst kv) k) kvs with
      | Some (_, v) => Some v
      | None => Some default
      end
  | _ => None
  end.

(** Python truthiness of a JSON value. *)
Definition json_truthy (v : json) : bool :=
  match v with
  | JNull => false
  | JBool b => b
  | JInt z => negb (Z.eqb z 0)
  | JStr s => negb (String.eqb s EmptyString)
  | JArr l => match l with [] => false | _ => true end
  | JObj l => match l with [] => false | _ => true end
  end.

(** [for x in v]: a list yields its elements, a dict its keys, a string
    its one-character strings; other values raise [TypeError] ([None]). *)
Fixpoint string_chars (s : string) : list json :=
  match s with
  | EmptyString => []
  | String c s' => JStr (String c EmptyString) :: string_chars s'
  end.

Definition json_iter (v : json) : option (list json) :=
  match v with
  | JArr l => Some l
  | JObj kvs => Some (map (fun kv => JStr (fst kv)) kvs)
  | JStr s => Some (string_chars s)
  | _ => None
  end.

(** A value used where Python needs an [int] ([range], comparisons with
    integers): [bool] is a subclass of [int]. *)
Definition py_int (v : json) : option Z :=
  match v with
  | JInt z => Some z
  | JBool b => Some (if b then 1 else 0)
  | _ => None
  end.

(* ================================================================== *)
(** ** models.py: data classes *)

Inductive ImageOrientation : Type := HORIZONTAL | VERTICAL.

Definition orientation_eqb (a b : ImageOrientation) : bool :=
  match a, b with
  | HORIZONTAL, HORIZONTAL | VERTICAL, VERTICAL => true
  | _, _ => false
  end.

(** [ImageInfo] is a dataclass whose annotations are not enforced: a
    width read back from a state document is whatever value the document
    holds, so [width] and [height] are JSON values ([JInt] for images
    scanned from a directory). A [Path] is held as its [str], which
    [pathlib] normalizes ([py_path] below), so equal paths are equal
    strings; the same holds for [image_directory]. *)
Record ImageInfo : Type := mkImageInfo {
  path : string;
  orientation : ImageOrientation;
  width : json;
  height : json
}.

(** The dataclass [__eq__]: field-wise. *)
Definition image_eqb (a b : ImageInfo) : bool :=
  String.eqb (path a) (path b) && orientation_eqb (orientation a) (orientation b)
  && json_eqb (width a) (width b) && json_eqb (height a) (height b).

Record GridCell : Type := mkGridCell {
  row : Z;
  col : Z;
  image : option ImageInfo;
  is_occupied : bool;
  is_main_cell : bool;
  main_position : option (Z * Z)
}.

(** [GridCell(row, col)] with its default fields. *)
Definition new_cell (r c : Z) : GridCell :=
  mkGridCell r c None false true None.

Record PuzzleModel : Type := mkPuzzleModel {
  rows : Z;
  cols : Z;
  grid : list (list GridCell);
  used_images : list ImageInfo;
  unused_images : list ImageInfo;
  image_directory : option string
}.

(** Python's [range(a, b)]. *)
Definition range (a b : Z) : list Z :=
  map (fun i => a + Z.of_nat i) (seq 0 (Z.to_nat (b - a))).

(** [_initialize_grid]. *)
Definition initialize_grid (nrows ncols : Z) : list (list GridCell) :=
  map (fun r => map (fun c => new_cell r c) (range 0 ncols)) (range 0 nrows).

Definition PuzzleModel_init (nrows ncols : Z) : PuzzleModel :=
  mkPuzzleModel nrows ncols (initialize_grid nrows ncols) [] [] None.

(** [self.grid[r][c]] for [0 <= r < rows], [0 <= c < cols]. The grid
    always has [rows] lists of [cols] cells ([grid_shape] below), so the
    default cell is never returned at such an index. *)
Definition cell_at (g : list (list GridCell)) (r c : Z) : GridCell :=
  nth (Z.to_nat c) (nth (Z.to_nat r) g []) (new_cell r c).

Fixpoint update_nth {A : Type} (n : nat) (f : A -> A) (l : list A) : list A :=
  match l, n with
  | [], _ => []
  | x :: l', O => f x :: l'
  | x :: l', S n' => x :: update_nth n' f l'
  end.

(** Assigning the attributes of the cell object [self.grid[r][c]]. *)
Definition set_cell (g : list (list GridCell)) (r c : Z) (f : GridCell -> GridCell)
  : list (list GridCell) :=
  update_nth (Z.to_nat r) (update_nth (Z.to_nat c) f) g.

Definition shape (g : list (list GridCell)) (nrows ncols : Z) : Prop :=
  Z.of_nat (List.length g) = nrows /\
  Forall (fun rw => Z.of_nat (List.length rw) = ncols) g.

Definition grid_shape (m : PuzzleModel) : Prop := shape (grid m) (rows m) (cols m).

(** [x in lst], [lst.remove(x)] (first occurrence; [ValueError] is never
    reached since the code tests membership first) and [lst.append]. *)
Definition img_in (x : ImageInfo) (l : list ImageInfo) : bool :=
  existsb (image_eqb x) l.

Fixpoint list_remove (x : ImageInfo) (l : list ImageInfo) : list ImageInfo :=
  match l with
  | [] => []
  | y :: l' => if image_eqb x y then l' else y :: list_remove x l'
  end.

(* ================================================================== *)
(** ** models.py: PuzzleModel methods *)

Definition in_bounds (m : PuzzleModel) (r c : Z) : bool :=
  negb ((r <? 0) || (r >=? rows m) || (c <? 0) || (c >=? cols m)).

Definition can_place_image (m : PuzzleModel) (r c : Z) (img : ImageInfo) : bool :=
  if negb (in_bounds m r c) then false
  else match orientation img with
       | HORIZONTAL => negb (is_occupied (cell_at (grid m) r c))
       | VERTICAL =>
           if r + 2 >=? rows m then false
           else negb (existsb (fun i => is_occupied (cell_at (grid m) (r + i) c))
                        (range 0 3))
       end.

(** The attributes written by [place_image] to cell [i] of the span. *)
Definition occupy (img : ImageInfo) (main : bool) (mp : option (Z * Z))
  (cell : GridCell) : GridCell :=
  mkGridCell (row cell) (col cell) (Some img) true main mp.

Definition place_cells (g : list (list GridCell)) (r c : Z) (img : ImageInfo)
  : list (list GridCell) :=
  match orientation img with
  | HORIZONTAL => set_cell g r c (occupy img true None)
  | VERTICAL =>
      fold_left (fun g i =>
        set_cell g (r + i) c
          (occupy img (Z.eqb i 0) (if Z.eqb i 0 then None else Some (r, c))))
        (range 0 3) g
  end.

Definition place_image (m : PuzzleModel) (r c : Z) (img : ImageInfo)
  : bool * PuzzleModel :=
  if negb (can_place_image m r c img) then (false, m)
  else
    let g := place_cells (grid m) r c img in
    let unused := if img_in img (unused_images m)
                  then list_remove img (unused_images m) else unused_images m in
    let used := if img_in img (used_images m)
                then used_images m else used_images m ++ [img] in
    (true, mkPuzzleModel (rows m) (cols m) g used unused (image_directory m)).

(** The attributes written by [remove_image] to every cell of the image. *)
Definition reset_cell (cell : GridCell) : GridCell :=
  mkGridCell (row cell) (col cell) None false true None.

(** [self.grid[r][c].image == image]: [None == image] is false. *)
Definition opt_img_eqb (o : option ImageInfo) (img : ImageInfo) : bool :=
  match o with Some x => image_eqb x img | None => false end.

(** The whole-grid scan of [remove_image]. *)
Definition clear_image_cells (nrows ncols : Z) (img : ImageInfo)
  (g : list (list GridCell)) : list (list GridCell) :=
  fold_left (fun g r =>
    fold_left (fun g c =>
      if opt_img_eqb (image (cell_at g r c)) img then set_cell g r c reset_cell else g)
      (range 0 ncols) g)
    (range 0 nrows) g.

Definition remove_image (m : PuzzleModel) (r c : Z) : option ImageInfo * PuzzleModel :=
  if negb (in_bounds m r c) then (None, m)
  else
    let cell := cell_at (grid m) r c in
    match is_occupied cell, image cell with
    | true, Some img =>
        let g := clear_image_cells (rows m) (cols m) img (grid m) in
        let used := if img_in img (used_images m)
                    then list_remove img (used_images m) else used_images m in
        let unused := if img_in img (unused_images m)
                      then unused_images m else unused_images m ++ [img] in
        (Some img, mkPuzzleModel (rows m) (cols m) g used unused (image_directory m))
    | _, _ => (None, m)
    end.

Definition get_cell (m : PuzzleModel) (r c : Z) : option GridCell :=
  if in_bounds m r c then Some (cell_at (grid m) r c) else None.

(** A [GridCell] object is always truthy. *)
Definition get_main_cell_position (m : PuzzleModel) (r c : Z) : Z * Z :=
  match get_cell m r c with
  | Some cell =>
      if is_occupied cell then
        match main_position cell with Some p => p | None => (r, c) end
      else (r, c)
  | None => (r, c)
  end.

(** [current_images] of [resize_grid]: row by row, the image of every
    cell that has one and is a main cell. *)
Definition cell_main_image (cell : GridCell) : list ImageInfo :=
  match image cell with
  | Some i => if is_main_cell cell then [i] else []
  | None => []
  end.

Definition main_images (g : list (list GridCell)) : list ImageInfo :=
  flat_map (fun rw => flat_map cell_main_image rw) g.

Definition resize_grid (m : PuzzleModel) (nrows ncols : Z) : PuzzleModel :=
  let current_images := main_images (grid m) in
  mkPuzzleModel nrows ncols (initialize_grid nrows ncols) []
    (unused_images m ++ current_images) (image_directory m).

(* ================================================================== *)
(** ** region_editor_window.py *)

(** [QRect(left, top, width, height)]; [bottom()] and [right()] are the
    inclusive last row and column, [top + height - 1] and
    [left + width - 1]; a null rectangle has width and height 0. *)
Record QRect : Type := mkQRect { qleft : Z; qtop : Z; qwidth : Z; qheight : Z }.

Definition qbottom (q : QRect) : Z := qtop q + qheight q - 1.
Definition qright (q : QRect) : Z := qleft q + qwidth q - 1.
Definition qisNull (q : QRect) : bool := (qwidth q =? 0) && (qheight q =? 0).

(** The rows then the columns of [range(start_row, end_row)] x
    [range(start_col, end_col)]. *)
Definition region_cells (q : QRect) : list (Z * Z) :=
  flat_map (fun r => map (fun c => (r, c)) (range (qleft q) (qleft q + qwidth q)))
    (range (qtop q) (qtop q + qheight q)).

(** One entry of [get_vertical_images_in_region]; [occupied_cells] is
    [(row + i, col)] for [i < 3] and is not read by the callers here. *)
Record VerticalEntry : Type := mkVerticalEntry {
  v_row : Z; v_col : Z; v_image : ImageInfo; start_row : Z; end_row : Z
}.

(** One iteration of the double loop of [get_vertical_images_in_region];
    the accumulator is [(processed_images, vertical_images)]. *)
Definition vertical_scan_step (m : PuzzleModel)
  (acc : list (string * Z * Z) * list VerticalEntry) (rc : Z * Z)
  : list (string * Z * Z) * list VerticalEntry :=
  let '(processed, out) := acc in
  let '(r, c) := rc in
  match get_cell m r c with
  | Some cell =>
      match is_occupied cell, image cell with
      | true, Some img =>
          match orientation img with
          | VERTICAL =>
              let '(mr, mc) := get_main_cell_position m r c in
              let key := (path img, mr, mc) in
              if existsb (fun k => let '(p, a, b) := k in
                                   String.eqb p (path img) && (a =? mr) && (b =? mc))
                   processed
              then acc
              else (processed ++ [key], out ++ [mkVerticalEntry mr mc img mr (mr + 3)])
          | HORIZONTAL => acc
          end
      | _, _ => acc
      end
  | None => acc
  end.

Definition get_vertical_images_in_region (m : PuzzleModel) (q : QRect)
  : list VerticalEntry :=
  if qisNull q then []
  else snd (fold_left (vertical_scan_step m) (region_cells q) ([], [])).

(** [_auto_expand_for_vertical_images]: its result and the selection it
    leaves (message boxes and debug output apart). *)
Definition expand_step (acc : Z * Z * bool) (v : VerticalEntry) : Z * Z * bool :=
  let '(new_top, new_bottom, needed) := acc in
  let need_expand_top := start_row v <? new_top in
  let need_expand_bottom := end_row v >? new_bottom in
  if need_expand_top || need_expand_bottom then
    ((if need_expand_top then Z.min new_top (start_row v) else new_top),
     (if need_expand_bottom then Z.max new_bottom (end_row v) else new_bottom),
     true)
  else acc.

Definition auto_expand_for_vertical_images (m : PuzzleModel) (q : QRect) : bool * QRect :=
  if qisNull q then (false, q)
  else
    match get_vertical_images_in_region m q with
    | [] => (false, q)
    | vimgs =>
        let '(new_top, new_bottom, expansion_needed) :=
          fold_left expand_step vimgs (qtop q, qbottom q, false) in
        if negb expansion_needed then (false, q)
        else
          let new_top := Z.max 0 new_top in
          let new_bottom := Z.min (rows m) new_bottom in
          (true, mkQRect (qleft q) new_top (qwidth q) (new_bottom - new_top))
    end.

(** One entry of [images_to_move]. *)
Record MoveItem : Type := mkMoveItem {
  mv_image : ImageInfo; old_row : Z; old_col : Z; new_row : Z; new_col : Z
}.

Definition span_cells (img : ImageInfo) (r c : Z) : list (Z * Z) :=
  match orientation img with
  | VERTICAL => map (fun i => (i, c)) (range r (r + 3))
  | HORIZONTAL => [(r, c)]
  end.

Inductive MoveOutcome : Type :=
| NoSelection       (** no region selected *)
| EdgeRejected      (** the region already touches the edge moved to *)
| OutOfBounds       (** some image's destination leaves the grid *)
| NothingToMove     (** no main cell in the region *)
| Executed (success : bool).

(** Positions as the keys of [positions_to_clear]; [nodup pos_eq_dec]
    enumerates a list's positions in the order of their first insertion,
    one enumeration a Python set may use. *)
Definition pos_eq_dec (a b : Z * Z) : {a = b} + {a <> b}.
Proof. decide equality; apply Z.eq_dec. Defined.

(** The positions added to [positions_to_clear]: the spans at the old
    anchors, then the spans at the new ones. *)
Definition clear_positions (items : list MoveItem) : list (Z * Z) :=
  flat_map (fun it => span_cells (mv_image it) (old_row it) (old_col it)) items
  ++ flat_map (fun it => span_cells (mv_image it) (new_row it) (new_col it)) items.

Section RegionMove.

(** The iteration order of the Python set [positions_to_clear]: some
    duplicate-free enumeration of the positions added to it. *)
Variable set_elements : list (Z * Z) -> list (Z * Z).

Definition execute_region_move (m : PuzzleModel) (items : list MoveItem)
  : bool * PuzzleModel :=
  match items with
  | [] => (false, m)
  | _ =>
      let positions_to_clear := clear_positions items in
      let '(m1, cleared_count) :=
        fold_left (fun (acc : PuzzleModel * Z) rc =>
          let '(m, n) := acc in
          let '(r, c) := rc in
          if (0 <=? r) && (r <? rows m) && (0 <=? c) && (c <? cols m) then
            match get_cell m r c with
            | Some cell =>
                if is_occupied cell then (snd (remove_image m r c), n + 1) else acc
            | None => acc
            end
          else acc) (set_elements positions_to_clear) (m, 0) in
      let '(m2, moved_count) :=
        fold_left (fun (acc : PuzzleModel * Z) it =>
          let '(m, n) := acc in
          let '(ok, m') := place_image m (new_row it) (new_col it) (mv_image it) in
          (m', if ok then n + 1 else n)) items (m1, 0) in
      (moved_count >? 0, m2)
  end.

(** The scan shared by the four moves: every occupied main cell of the
    region gets the destination [dest r c]; the first one for which
    [fits] fails makes the handler return before any mutation ([None]).
    An occupied main cell without an image makes Python raise before any
    mutation too. *)
Definition collect_moves (m : PuzzleModel) (q : QRect) (dest : Z -> Z -> Z * Z)
  (fits : ImageInfo -> Z -> Z -> bool) : option (list MoveItem) :=
  fold_left (fun (acc : option (list MoveItem)) rc =>
    match acc with
    | None => None
    | Some items =>
        let '(r, c) := rc in
        match get_cell m r c with
        | Some cell =>
            if is_occupied cell && is_main_cell cell then
              match image cell with
              | Some img =>
                  let '(nr, nc) := dest r c in
                  if fits img nr nc then Some (items ++ [mkMoveItem img r c nr nc])
                  else None
              | None => None
              end
            else acc
        | None => acc
        end
    end) (region_cells q) (Some []).

Definition run_move (m : PuzzleModel) (q : QRect) (items : option (list MoveItem))
  (shift : QRect -> QRect) : MoveOutcome * PuzzleModel * QRect :=
  match items with
  | None => (OutOfBounds, m, q)
  | Some [] => (NothingToMove, m, q)
  | Some its =>
      let '(success, m') := execute_region_move m its in
      (Executed success, m', if success then shift q else q)
  end.

Definition move_up (m : PuzzleModel) (sel : QRect) : MoveOutcome * PuzzleModel * QRect :=
  if qisNull sel then (NoSelection, m, sel)
  else
    let q := snd (auto_expand_for_vertical_images m sel) in
    if qtop q =? 0 then (EdgeRejected, m, q)
    else run_move m q
           (collect_moves m q (fun r c => (r - 1, c)) (fun _ nr _ => negb (nr <? 0)))
           (fun q => mkQRect (qleft q) (qtop q - 1) (qwidth q) (qheight q)).

Definition move_down (m : PuzzleModel) (sel : QRect) : MoveOutcome * PuzzleModel * QRect :=
  if qisNull sel then (NoSelection, m, sel)
  else
    let q := snd (auto_expand_for_vertical_images m sel) in
    run_move m q
      (collect_moves m q (fun r c => (r + 1, c))
         (fun img nr _ => match orientation img with
                          | VERTICAL => negb (nr + 3 >? rows m)
                          | HORIZONTAL => negb (nr >=? rows m)
                          end))
      (fun q => mkQRect (qleft q) (qtop q + 1) (qwidth q) (qheight q)).

Definition move_left (m : PuzzleModel) (sel : QRect) : MoveOutcome * PuzzleModel * QRect :=
  if qisNull sel then (NoSelection, m, sel)
  else
    let q := snd (auto_expand_for_vertical_images m sel) in
    if qleft q =? 0 then (EdgeRejected, m, q)
    else run_move m q
           (collect_moves m q (fun r c => (r, c - 1)) (fun _ _ nc => negb (nc <? 0)))
           (fun q => mkQRect (qleft q - 1) (qtop q) (qwidth q) (qheight q)).

Definition move_right (m : PuzzleModel) (sel : QRect) : MoveOutcome * PuzzleModel * QRect :=
  if qisNull sel then (NoSelection, m, sel)
  else
    let q := snd (auto_expand_for_vertical_images m sel) in
    if qleft q + qwidth q >=? cols m then (EdgeRejected, m, q)
    else run_move m q
           (collect_moves m q (fun r c => (r, c + 1)) (fun _ _ nc => negb (nc >=? cols m)))
           (fun q => mkQRect (qleft q + 1) (qtop q) (qwidth q) (qheight q)).

End RegionMove.

(* ================================================================== *)
(** ** config.py and puzzle_exporter.py: spacing and canvas geometry *)

Definition VERTICAL_IMAGE_SPAN : Z := 3.

(** [config.calculate_spacing], used by the preview widgets. *)
Definition config_calculate_spacing (cell_height : Z) : Z :=
  let vertical_height := cell_height * VERTICAL_IMAGE_SPAN in
  let horizontal_height := cell_height in
  Z.max 0 ((vertical_height - 3 * horizontal_height) / 2).

(** [PuzzleExporter.calculate_spacing], used by the export. *)
Definition exporter_calculate_spacing (cell_height : Z) : Z :=
  let vertical_height := cell_height * 256 / 81 in
  let spacing := (vertical_height - 3 * cell_height) / 2 in
  Z.max spacing 1.

(** [get_valid_area]: the four bounds are set together at the first
    occupied main cell, so one optional quadruple
    [(min_row, max_row, min_col, max_col)] stands for them. *)
Definition valid_area_step (m : PuzzleModel) (acc : option (Z * Z * Z * Z)) (rc : Z * Z)
  : option (Z * Z * Z * Z) :=
  let '(r, c) := rc in
  match get_cell m r c with
  | Some cell =>
      if is_occupied cell && is_main_cell cell then
        let '(min_row, max_row, min_col, max_col) :=
          match acc with
          | None => (r, r, c, c)
          | Some (a, b, d, e) => (Z.min a r, Z.max b r, Z.min d c, Z.max e c)
          end in
        let max_row :=
          match image cell with
          | Some img =>
              match orientation img with
              | VERTICAL => Z.max max_row (r + VERTICAL_IMAGE_SPAN - 1)
              | HORIZONTAL => max_row
              end
          | None => max_row
          end in
        Some (min_row, max_row, min_col, max_col)
      else acc
  | None => acc
  end.

Definition get_valid_area (m : PuzzleModel) : option (Z * Z * Z * Z) :=
  fold_left (valid_area_step m) (region_cells (mkQRect 0 0 (cols m) (rows m))) None.

(** [QSize(w, h).scaled(QSize(tw, th), Qt::KeepAspectRatio)], with the
    truncating 64-bit integer division of qsize.cpp. *)
Definition qsize_scaled_keep (w h tw th : Z) : Z * Z :=
  if (w =? 0) || (h =? 0) then (tw, th)
  else
    let rw := Z.quot (th * w) h in
    if rw <=? tw then (rw, th) else (tw, Z.quot (tw * h) w).

(** [pixmap.scaled(tw, th, Qt.KeepAspectRatio, ...)]: the size of the
    result, [None] for a null pixmap. A null source, or a target with a
    side [<= 0], gives a null pixmap; otherwise each side of the scaled
    size is raised to at least 1, and the smooth transformation yields
    a pixmap of that size. A non-null source has positive sides. *)
Definition qpixmap_scaled (src : option (positive * positive)) (tw th : Z) : option (Z * Z) :=
  match src with
  | None => None
  | Some (w, h) =>
      if (tw <=? 0) || (th <=? 0) then None
      else let '(nw, nh) := qsize_scaled_keep (Z.pos w) (Z.pos h) tw th in
           Some (Z.max nw 1, Z.max nh 1)
  end.

(** A pixmap drawn by [create_puzzle_image]: its top-left corner on the
    canvas, its size, and the image it shows. *)
Record Tile : Type := mkTile {
  tile_x : Z; tile_y : Z; tile_width : Z; tile_height : Z; tile_image : ImageInfo
}.

(** The painting calls of [create_puzzle_image] that reach the canvas, in
    order; pens, fonts and colours are not modelled ([FillRect] is the
    white background of a cell, [DrawLine] a grid line, [DrawText] an
    index). *)
Inductive PaintOp : Type :=
| DrawLine (x1 y1 x2 y2 : Z)
| FillRect (x y w h : Z)
| DrawPixmap (t : Tile)
| DrawText (x y : Z) (text : string).

(** The output: the size passed to [QPixmap(total_width, total_height)]
    and the painting done on it. A size with a side [<= 0] makes a null
    pixmap, on which the [QPainter] is not active and paints nothing. *)
Record Canvas : Type := mkCanvas { canvas_width : Z; canvas_height : Z; ops : list PaintOp }.

Definition tiles (cv : Canvas) : list Tile :=
  flat_map (fun op => match op with DrawPixmap t => [t] | _ => [] end) (ops cv).

(** [f"{n}"] for an integer. *)
Definition py_str_int (n : Z) : string := NilZero.string_of_int (Z.to_int n).

(** [create_puzzle_image(cell_width, cell_height, bg_color, draw_grid,
    custom_spacing, show_indices)]; [None] is the [ValueError] raised on
    a grid without images. [pixmap_size p] is the size of
    [QPixmap(p)], [None] when it is null (the file cannot be read). *)
Definition create_puzzle_image (pixmap_size : string -> option (positive * positive))
  (m : PuzzleModel) (cell_width cell_height : Z) (draw_grid : bool)
  (custom_spacing : option Z) (show_indices : bool) : option Canvas :=
  match get_valid_area m with
  | None => None
  | Some (min_row, max_row, min_col, max_col) =>
      let valid_rows := max_row - min_row + 1 in
      let valid_cols := max_col - min_col + 1 in
      let spacing := match custom_spacing with
                     | Some s => s
                     | None => exporter_calculate_spacing cell_height
                     end in
      let spacing := Z.max spacing 0 in
      let total_width := if valid_cols >? 1
                         then cell_width * valid_cols + spacing * (valid_cols - 1)
                         else cell_width * valid_cols in
      let total_height := if valid_rows >? 1
                          then cell_height * valid_rows + spacing * (valid_rows - 1)
                          else cell_height * valid_rows in
      let grid_lines :=
        if draw_grid then
          map (fun col => let x := col * (cell_width + spacing) - spacing / 2 in
                          DrawLine x 0 x total_height) (range 0 (valid_cols + 1)) ++
          map (fun row => let y := row * (cell_height + spacing) - spacing / 2 in
                          DrawLine 0 y total_width y) (range 0 (valid_rows + 1))
        else [] in
      let cell_ops rc :=
        let '(row, col) := rc in
        match get_cell m row col with
        | Some cell =>
            match is_occupied cell, image cell, is_main_cell cell with
            | true, Some img, true =>
                let x := (col - min_col) * (cell_width + spacing) in
                let y := (row - min_row) * (cell_height + spacing) in
                let target_width := cell_width in
                let target_height :=
                  match orientation img with
                  | VERTICAL => cell_height * VERTICAL_IMAGE_SPAN
                                + spacing * (VERTICAL_IMAGE_SPAN - 1)
                  | HORIZONTAL => cell_height
                  end in
                (if draw_grid then [FillRect x y target_width target_height] else []) ++
                let source_pixmap := pixmap_size (path img) in
                match source_pixmap with
                | Some _ =>
                    match qpixmap_scaled source_pixmap target_width target_height with
                    | Some (sw, sh) =>
                        let draw_x := x + (target_width - sw) / 2 in
                        let draw_y := y + (target_height - sh) / 2 in
                        [DrawPixmap (mkTile draw_x draw_y sw sh img)]
                    | None => []
                    end
                | None => []
                end
            | _, _, _ => []
            end
        | None => []
        end in
      let indices :=
        if show_indices then
          map (fun col => let x := (col - min_col) * (cell_width + spacing) + cell_width / 2 in
                          DrawText (x - 10) 15 (py_str_int col)) (range min_col (max_col + 1)) ++
          map (fun row => let y := (row - min_row) * (cell_height + spacing) + cell_height / 2 in
                          DrawText 5 (y + 5) (py_str_int row)) (range min_row (max_row + 1))
        else [] in
      let painted :=
        grid_lines ++
        flat_map cell_ops (region_cells (mkQRect min_col min_row valid_cols valid_rows)) ++
        indices in
      Some (mkCanvas total_width total_height
              (if (total_width <=? 0) || (total_height <=? 0) then [] else painted))
  end.

(* ================================================================== *)
(** ** models.py: load_images_from_directory *)

(** A directory entry as [directory.iterdir()] yields it: its path, its
    [suffix], and the pixel size [Image.open] reads ([None] when opening
    raises, which the loop catches). *)
Record DirEntry : Type := mkDirEntry {
  entry_path : string; entry_suffix : string; entry_size : option (Z * Z)
}.

Definition ascii_lower (a : Ascii.ascii) : Ascii.ascii :=
  let n := Ascii.nat_of_ascii a in
  if (65 <=? n)%nat && (n <=? 90)%nat then Ascii.ascii_of_nat (n + 32) else a.

Fixpoint string_lower (s : string) : string :=
  match s with
  | EmptyString => EmptyString
  | String a s' => String (ascii_lower a) (string_lower s')
  end.

Definition SUPPORTED_IMAGE_FORMATS : list string :=
  [".jpg"%string; ".jpeg"%string; ".png"%string; ".bmp"%string; ".tiff"%string; ".tif"%string].

(** One iteration of the [for file_path in directory.iterdir()] loop;
    the accumulator is [(loaded_count, self)]. *)
Definition load_entry (acc : Z * PuzzleModel) (e : DirEntry) : Z * PuzzleModel :=
  let '(loaded_count, m) := acc in
  if existsb (String.eqb (string_lower (entry_suffix e))) SUPPORTED_IMAGE_FORMATS then
    match entry_size e with
    | None => acc
    | Some (w, h) =>
        let orient :=
          if w >? h then Some HORIZONTAL
          else if h >? w then Some VERTICAL
          else None in
        match orient with
        | None => acc
        | Some o =>
            let image_info := mkImageInfo (entry_path e) o (JInt w) (JInt h) in
            if negb (img_in image_info (unused_images m)) then
              (loaded_count + 1,
               mkPuzzleModel (rows m) (cols m) (grid m) (used_images m)
                 (unused_images m ++ [image_info]) (image_directory m))
            else acc
        end
    end
  else acc.

(** [directory] is [None] when it does not exist or is not a directory,
    otherwise its listing; the result is [loaded_count] and the model. *)
Definition load_images_from_directory (m : PuzzleModel) (dir_path : string)
  (directory : option (list DirEntry)) : Z * PuzzleModel :=
  match directory with
  | None => (0, m)
  | Some entries =>
      let m := mkPuzzleModel (rows m) (cols m) (grid m) (used_images m)
                 (unused_images m) (Some dir_path) in
      fold_left load_entry entries (0, m)
  end.

(* ================================================================== *)
(** ** state_manager.py *)

Inductive exn : Type :=
| AttributeError (name : string)
| TypeError
| KeyError (key : string)
| ValueError.

(** The attributes of the [config] module, as config.py defines them. *)
Inductive config_value : Type :=
| CInt (z : Z)
| CStr (s : string)
| CRatio (num den : Z)     (** a float literal [num / den] *)
| CStrList (l : list string)
| CFunction.

Definition config_module : list (string * config_value) :=
  [("PREVIEW_CELL_WIDTH", CInt 160); ("PREVIEW_CELL_HEIGHT", CInt 90);
   ("GRID_OUTPUT_WIDTH", CInt 1920); ("GRID_OUTPUT_HEIGHT", CInt 1080);
   ("VERTICAL_IMAGE_SPAN", CInt 3); ("calculate_spacing", CFunction);
   ("DATA_DIR", CStr "data"); ("STATE_FILE_EXTENSION", CStr ".json");
   ("DEFAULT_GRID_ROWS", CInt 13); ("DEFAULT_GRID_COLS", CInt 10);
   ("SUPPORTED_IMAGE_FORMATS", CStrList SUPPORTED_IMAGE_FORMATS);
   ("IMAGE_ASPECT_RATIO", CRatio 16 9); ("VERTICAL_ASPECT_RATIO", CRatio 9 16)]%string.

(** [config.NAME]: [AttributeError] for a name config.py does not define. *)
Definition config_getattr (name : string) : exn + config_value :=
  match find (fun kv => String.eqb (fst kv) name) config_module with
  | Some (_, v) => inr v
  | None => inl (AttributeError name)
  end.

(** The value [json.dump] writes for an integer, string or string list
    attribute (the only kinds [save_state] reads). *)
Definition config_to_json (v : config_value) : json :=
  match v with
  | CInt z => JInt z
  | CStr s => JStr s
  | CStrList l => JArr (map JStr l)
  | CRatio _ _ | CFunction => JNull
  end.

Definition sbind {A B : Type} (x : exn + A) (f : A -> exn + B) : exn + B :=
  match x with inl e => inl e | inr a => f a end.

Notation "'let?' x ':=' c 'in' k" := (sbind c (fun x => k))
  (at level 200, x name, c at level 100, k at level 200).

Definition orientation_value (o : ImageOrientation) : string :=
  match o with HORIZONTAL => "horizontal" | VERTICAL => "vertical" end%string.

(** POSIX [pathlib]. A path is represented by [str(path)]; [parse_path]
    is the constructor [Path(s)] (root and the parts that are neither
    empty nor ["."]), [path_str] is [str], and [py_path s] is [str(Path(s))]. *)
Record PurePath : Type := mkPurePath { pp_root : string; pp_parts : list string }.

Definition is_slash (a : Ascii.ascii) : bool := Ascii.eqb a "/"%char.

Fixpoint split_slash (s : string) : list string :=
  match s with
  | EmptyString => [EmptyString]
  | String a s' =>
      match split_slash s' with
      | x :: xs => if is_slash a then EmptyString :: x :: xs else String a x :: xs
      | [] => [String a EmptyString]
      end
  end.

Definition path_root (s : string) : string :=
  match s with
  | String a s1 =>
      if is_slash a then
        match s1 with
        | String b s2 =>
            if is_slash b then
              match s2 with
              | String c _ => if is_slash c then "/" else "//"
              | EmptyString => "//"
              end
            else "/"
        | EmptyString => "/"
        end
      else ""
  | EmptyString => ""
  end%string.

Definition path_good_part (x : string) : bool :=
  negb (String.eqb x "") && negb (String.eqb x ".").

Definition parse_path (s : string) : PurePath :=
  mkPurePath (path_root s) (filter path_good_part (split_slash s)).

Fixpoint join_slash (l : list string) : string :=
  match l with
  | [] => ""
  | [x] => x
  | x :: l' => x ++ "/" ++ join_slash l'
  end%string.

Definition path_str (p : PurePath) : string :=
  match pp_root p, pp_parts p with
  | EmptyString, [] => "."
  | r, ps => r ++ join_slash ps
  end%string.

Definition py_path (s : string) : string := path_str (parse_path s).

(** [Path(p).is_absolute()]: a non-empty root. *)
Definition is_absolute (p : string) : bool :=
  match p with String a _ => Ascii.eqb a "/"%char | EmptyString => false end.

(** [Path(d) / p]: an absolute [p] replaces [d]. *)
Definition path_join (d p : string) : string :=
  let pd := parse_path d in
  let pp := parse_path p in
  if String.eqb (pp_root pp) EmptyString
  then path_str (mkPurePath (pp_root pd) (pp_parts pd ++ pp_parts pp))
  else path_str pp.

(** [Path(p).relative_to(d)]: [None] is its [ValueError]; the roots
    must be equal and the parts of [d] a prefix of those of [p]. *)
Fixpoint strip_parts (pre l : list string) : option (list string) :=
  match pre, l with
  | [], _ => Some l
  | x :: pre', y :: l' => if String.eqb x y then strip_parts pre' l' else None
  | _ :: _, [] => None
  end.

Definition relative_to (p d : string) : option string :=
  let pp := parse_path p in
  let pd := parse_path d in
  if String.eqb (pp_root pp) (pp_root pd) then
    option_map (fun rest => path_str (mkPurePath EmptyString rest))
      (strip_parts (pp_parts pd) (pp_parts pp))
  else None.

(** Paths without a slash, and the values [parse_path] returns. *)
Fixpoint no_slash (s : string) : bool :=
  match s with
  | EmptyString => true
  | String a s' => negb (is_slash a) && no_slash s'
  end.

Definition good_part (x : string) : Prop := path_good_part x = true /\ no_slash x = true.

Definition wf_path (p : PurePath) : Prop :=
  (pp_root p = ""%string \/ pp_root p = "/"%string \/ pp_root p = "//"%string) /\
  Forall good_part (pp_parts p).

Definition ends_with (s suf : string) : bool :=
  (String.length suf <=? String.length s)%nat &&
  String.eqb (substring (String.length s - String.length suf) (String.length suf) s) suf.

Definition serialize_image (img : ImageInfo) (image_directory : option string) : json :=
  let path_str :=
    match image_directory with
    | Some d => match relative_to (path img) d with Some r => r | None => path img end
    | None => path img
    end in
  JObj [("path", JStr path_str); ("orientation", JStr (orientation_value (orientation img)));
        ("width", width img); ("height", height img)]%string.

(** [save_state]: the path written to and the document [json.dump]
    writes there; [now_stamp] and [now_iso] are the two readings of
    [datetime.now()]. *)
Definition save_state (now_stamp now_iso : string) (m : PuzzleModel)
  (custom_filename : option string) : exn + (string * json) :=
  let filename :=
    match custom_filename with
    | Some f => if String.eqb f EmptyString then (now_stamp ++ ".json")%string
                else if ends_with f ".json" then f else (f ++ ".json")%string
    | None => (now_stamp ++ ".json")%string
    end in
  let file_path := ("data/" ++ filename)%string in
  let dir_json := match image_directory m with Some d => JStr d | None => JNull end in
  let? pw := config_getattr "GRID_PREVIEW_WIDTH" in
  let? ph := config_getattr "GRID_PREVIEW_HEIGHT" in
  let? ow := config_getattr "GRID_OUTPUT_WIDTH" in
  let? oh := config_getattr "GRID_OUTPUT_HEIGHT" in
  let? sp := config_getattr "GRID_SPACING" in
  let? osp := config_getattr "OUTPUT_SPACING" in
  let grid_config :=
    JObj [("rows", JInt (rows m)); ("cols", JInt (cols m));
          ("preview_width", config_to_json pw); ("preview_height", config_to_json ph);
          ("output_width", config_to_json ow); ("output_height", config_to_json oh);
          ("spacing", config_to_json sp); ("output_spacing", config_to_json osp)]%string in
  let images :=
    JObj [("unused", JArr (map (fun i => serialize_image i (image_directory m)) (unused_images m)));
          ("used", JArr (map (fun i => serialize_image i (image_directory m)) (used_images m)))]%string in
  let grid_layout :=
    map (fun r =>
      JArr (map (fun c =>
        match get_cell m r c with
        | Some cell =>
            match image cell with
            | Some img =>
                if is_main_cell cell then
                  JObj [("row", JInt r); ("col", JInt c);
                        ("image", serialize_image img (image_directory m));
                        ("is_main_cell", JBool true)]%string
                else JNull
            | None => JNull
            end
        | None => JNull
        end) (range 0 (cols m)))) (range 0 (rows m)) in
  inr (file_path,
       JObj [("version", JStr "1.0"); ("timestamp", JStr now_iso);
             ("image_directory", dir_json); ("grid_config", grid_config);
             ("images", images); ("grid_layout", JArr grid_layout)]%string).

(** The model as Python holds it. [resize_grid] stores the values it is
    given in [self.rows] and [self.cols] before [range] checks them:
    [st_dims = Some (rows_v, cols_v)] records document values stored
    there of which one is not an integer. The [rows] and [cols] fields
    of [st_model] then stand for them only where they are integers. *)
Record PyState : Type := mkPyState {
  st_model : PuzzleModel;
  st_dims : option (json * json)
}.

(** Statements that mutate the model and may raise: a state monad whose
    exceptions keep the state reached when they are raised, as Python's
    mutations before a [raise] persist. *)
Definition PyM (A : Type) : Type := PyState -> PyState * (exn + A).

Definition pret {A : Type} (a : A) : PyM A := fun m => (m, inr a).
Definition pbind {A B : Type} (c : PyM A) (f : A -> PyM B) : PyM B :=
  fun m => let '(m', r) := c m in
           match r with inl e => (m', inl e) | inr a => f a m' end.
Definition praise {A : Type} (e : exn) : PyM A := fun m => (m, inl e).
Definition pget : PyM PuzzleModel := fun s => (s, inr (st_model s)).
Definition pput (m' : PuzzleModel) : PyM unit := fun s => (mkPyState m' (st_dims s), inr tt).
Definition plift {A : Type} (o : option A) (e : exn) : PyM A :=
  match o with Some a => pret a | None => praise e end.

Notation "x <- c1 ;; c2" := (pbind c1 (fun x => c2))
  (at level 61, c1 at next level, right associativity).
Notation "c1 ;; c2" := (pbind c1 (fun _ => c2)) (at level 61, right associativity).

Definition pfor {A : Type} (l : list A) (body : A -> PyM unit) : PyM unit :=
  fold_left (fun c x => c ;; body x) l (pret tt).

Definition enumerate {A : Type} (l : list A) : list (Z * A) :=
  combine (map Z.of_nat (seq 0 (List.length l))) l.

Definition with_grid (m : PuzzleModel) (g : list (list GridCell)) : PuzzleModel :=
  mkPuzzleModel (rows m) (cols m) g (used_images m) (unused_images m) (image_directory m).
Definition with_pools (m : PuzzleModel) (used unused : list ImageInfo) : PuzzleModel :=
  mkPuzzleModel (rows m) (cols m) (grid m) used unused (image_directory m).
Definition with_directory (m : PuzzleModel) (d : string) : PuzzleModel :=
  mkPuzzleModel (rows m) (cols m) (grid m) (used_images m) (unused_images m) (Some d).

(** [model.resize_grid(rows, cols)] on values read from a document. The
    values are stored, then [_initialize_grid] empties [grid] and calls
    [range(rows)], and [range(cols)] once per row: a non-integer [rows],
    or a non-integer [cols] with [rows > 0], raises [TypeError] there,
    before the pools are touched. With [rows <= 0] no row is built, so a
    non-integer [cols] is stored and never checked. *)
Definition py_resize_grid (rows_v cols_v : json) : PyM unit := fun s =>
  let m := st_model s in
  match py_int rows_v with
  | None => (mkPyState (with_grid m []) (Some (rows_v, cols_v)), inl TypeError)
  | Some r =>
      match py_int cols_v with
      | Some c => (mkPyState (resize_grid m r c) None, inr tt)
      | None =>
          if r <=? 0 then (mkPyState (resize_grid m r 0) (Some (rows_v, cols_v)), inr tt)
          else (mkPyState (with_grid m []) (Some (rows_v, cols_v)), inl TypeError)
      end
  end.

(** [_deserialize_image]: [None] for every exception it catches
    ([TypeError] when the record is not a dict or the path not a string,
    [KeyError] for a missing field, [ValueError] for an unknown
    orientation). *)
Definition deserialize_image (image_data : json) (image_directory : option string)
  : option ImageInfo :=
  let field k := match image_data with
                 | JObj kvs => option_map snd (find (fun kv => String.eqb (fst kv) k) kvs)
                 | _ => None
                 end in
  match image_data, field "path"%string with
  | JObj _, Some (JStr p) =>
      let p := py_path p in
      let p := if negb (is_absolute p) then
                 match image_directory with Some d => path_join d p | None => p end
               else p in
      match field "orientation"%string, field "width"%string, field "height"%string with
      | Some (JStr o), Some w, Some h =>
          if String.eqb o "horizontal" then Some (mkImageInfo p HORIZONTAL w h)
          else if String.eqb o "vertical" then Some (mkImageInfo p VERTICAL w h)
          else None
      | _, _, _ => None
      end
  | _, _ => None
  end.

Section ApplyState.

(** [Path.exists()] on the file system. *)
Variable path_exists : string -> bool.

Definition load_pool_entry (to_used : bool) (image_directory : option string)
  (img_data : json) : PyM unit :=
  match deserialize_image img_data image_directory with
  | Some info =>
      if path_exists (path info) then
        m <- pget ;;
        if to_used then pput (with_pools m (used_images m ++ [info]) (unused_images m))
        else pput (with_pools m (used_images m) (unused_images m ++ [info]))
      else pret tt
  | None => pret tt
  end.

Definition restore_cell (image_directory : option string) (row_idx col_idx : Z)
  (cell_data : json) : PyM unit :=
  m <- pget ;;
  if (col_idx >=? cols m) || negb (json_truthy cell_data) then pret tt
  else
    image_data <- plift (json_get cell_data "image" JNull) (AttributeError "get") ;;
    if json_truthy image_data then
      match deserialize_image image_data image_directory with
      | Some info =>
          if path_exists (path info) then
            m <- pget ;;
            let used := if img_in info (used_images m) then used_images m
                        else used_images m ++ [info] in
            let unused := if img_in info (unused_images m)
                          then list_remove info (unused_images m) else unused_images m in
            pput (with_pools m used unused) ;;
            m <- pget ;;
            pput (snd (place_image m row_idx col_idx info))
          else pret tt
      | None => pret tt
      end
    else pret tt.

(** The body of the [try] in [apply_state_to_model]. The [break] at
    [row_idx >= model.rows] keeps the first [rows] rows of the layout:
    the loop does not change [rows]. *)
Definition apply_state_body (state_data : json) : PyM bool :=
  grid_config <- plift (json_get state_data "grid_config" (JObj [])) (AttributeError "get") ;;
  rows_v <- plift (json_get grid_config "rows" (JInt 13)) (AttributeError "get") ;;
  cols_v <- plift (json_get grid_config "cols" (JInt 10)) (AttributeError "get") ;;
  py_resize_grid rows_v cols_v ;;
  image_directory_str <- plift (json_get state_data "image_directory" JNull) (AttributeError "get") ;;
  image_directory <-
    (if json_truthy image_directory_str then
       match image_directory_str with JStr s => pret (Some (py_path s)) | _ => praise TypeError end
     else pret None) ;;
  (match image_directory with
   | Some d => m <- pget ;; pput (with_directory m d)
   | None => pret tt
   end) ;;
  images_data <- plift (json_get state_data "images" (JObj [])) (AttributeError "get") ;;
  m <- pget ;;
  pput (with_pools m [] []) ;;
  unused_v <- plift (json_get images_data "unused" (JArr [])) (AttributeError "get") ;;
  unused_l <- plift (json_iter unused_v) TypeError ;;
  pfor unused_l (load_pool_entry false image_directory) ;;
  used_v <- plift (json_get images_data "used" (JArr [])) (AttributeError "get") ;;
  used_l <- plift (json_iter used_v) TypeError ;;
  pfor used_l (load_pool_entry true image_directory) ;;
  grid_layout <- plift (json_get state_data "grid_layout" (JArr [])) (AttributeError "get") ;;
  layout_l <- plift (json_iter grid_layout) TypeError ;;
  m <- pget ;;
  pfor (firstn (Z.to_nat (rows m)) (enumerate layout_l)) (fun rr =>
    row_l <- plift (json_iter (snd rr)) TypeError ;;
    pfor (enumerate row_l) (fun cc => restore_cell image_directory (fst rr) (fst cc) (snd cc))) ;;
  pret true.

(** [apply_state_to_model]: every exception is caught and reported as
    [False]; the model keeps what was done before it. *)
Definition apply_state_to_model (s : PyState) (state_data : json) : bool * PyState :=
  let '(s', r) := apply_state_body state_data s in
  match r with
  | inl _ => (false, s')
  | inr b => (b, s')
  end.

End ApplyState.

(* ================================================================== *)
(** ** Conditions stated by the specification *)

(** The three cells of a Portrait span anchored at [(r, c)] exist and
    are unoccupied. *)
Definition portrait_span_free (m : PuzzleModel) (r c : Z) : Prop :=
  0 <= r /\ r + 2 < rows m /\ 0 <= c < cols m /\
  forall i, 0 <= i < 3 -> is_occupied (cell_at (grid m) (r + i) c) = false.

(** The pool invariant of the specification: no image is in both pools,
    and an image is in [used_images] iff it occupies a cell. *)
Definition pool_invariant (m : PuzzleModel) : Prop :=
  (forall img, In img (used_images m) -> ~ In img (unused_images m)) /\
  (forall img, In img (used_images m) <->
     exists r c, 0 <= r < rows m /\ 0 <= c < cols m /\
                 image (cell_at (grid m) r c) = Some img).

(** The last row covered by the image whose main cell is at [(r, c)]
    ([r + 2] for a Portrait), or [None] when [(r, c)] is not an occupied
    main cell of the grid. *)
Definition main_extent (m : PuzzleModel) (rc : Z * Z) : option Z :=
  let '(r, c) := rc in
  match get_cell m r c with
  | Some cell =>
      if is_occupied cell && is_main_cell cell then
        Some (match image cell with
              | Some img => match orientation img with
                            | VERTICAL => r + VERTICAL_IMAGE_SPAN - 1
                            | HORIZONTAL => r
                            end
              | None => r
              end)
      else None
  | None => None
  end.

(** [(min_row, max_row, min_col, max_col)] is the bounding box of the
    occupied cells among the main cells at positions [cells]: it contains
    every such cell (with the full span of a Portrait) and each bound is
    reached by one of them. *)
Definition bounding_box (m : PuzzleModel) (cells : list (Z * Z))
  (min_row max_row min_col max_col : Z) : Prop :=
  (forall r c x, In (r, c) cells -> main_extent m (r, c) = Some x ->
     min_row <= r /\ x <= max_row /\ min_col <= c <= max_col) /\
  (exists r c x, In (r, c) cells /\ main_extent m (r, c) = Some x /\ r = min_row) /\
  (exists r c x, In (r, c) cells /\ main_extent m (r, c) = Some x /\ x = max_row) /\
  (exists r c x, In (r, c) cells /\ main_extent m (r, c) = Some x /\ c = min_col) /\
  (exists r c x, In (r, c) cells /\ main_extent m (r, c) = Some x /\ c = max_col).

(** What [get_valid_area]'s accumulator says about the cells scanned so
    far. *)
Definition area_inv (m : PuzzleModel) (cells : list (Z * Z))
  (acc : option (Z * Z * Z * Z)) : Prop :=
  match acc with
  | None => forall rc, In rc cells -> main_extent m rc = None
  | Some (a, b, d, e) => bounding_box m cells a b d e
  end.

(** ** Sample inputs *)

Definition sample_landscape : ImageInfo :=
  mkImageInfo "/photos/l1.jpg" HORIZONTAL (JInt 1920) (JInt 1080).
Definition sample_portrait : ImageInfo :=
  mkImageInfo "/photos/p1.jpg" VERTICAL (JInt 1080) (JInt 1920).
Definition sample_portrait2 : ImageInfo :=
  mkImageInfo "/photos/p2.jpg" VERTICAL (JInt 1080) (JInt 1920).

(** ** Callers that clear the grid *)

(** [self.grid[r][c]] after the scan of [remove_image] for [img]: the
    cell is reset when it holds an image equal to [img]. *)
Definition clear_cell (img : ImageInfo) (cell : GridCell) : GridCell :=
  if opt_img_eqb (image cell) img then reset_cell cell else cell.

(** [self.model.remove_image(row, col)] for each position, in order. *)
Definition remove_cells (m : PuzzleModel) (cells : list (Z * Z)) : PuzzleModel :=
  fold_left (fun m rc => snd (remove_image m (fst rc) (snd rc))) cells m.

(** [_clear_region] (region_editor_window.py). [confirmed] is the answer
    to the confirmation dialog; the result is the model and the selection
    left in [grid_preview.selected_rect]. *)
Definition clear_region (m : PuzzleModel) (sel : QRect) (confirmed : bool)
  : PuzzleModel * QRect :=
  if qisNull sel then (m, sel)
  else
    let q := snd (auto_expand_for_vertical_images m sel) in
    if confirmed then (remove_cells m (region_cells q), q) else (m, q).

(** [_clear_grid] of main_window.py after confirmation, which calls
    [grid_widget.clear_grid]: [remove_image] on every cell, row by row. *)
Definition clear_grid (m : PuzzleModel) : PuzzleModel :=
  remove_cells m (region_cells (mkQRect 0 0 (cols m) (rows m))).

(** [_clear_images] of main_window.py after confirmation: the grid is
    cleared, then both pools are emptied. *)
Definition clear_images (m : PuzzleModel) : PuzzleModel :=
  let m := clear_grid m in with_pools m [] [].

(** Every occupied cell holds an image equal to itself (an image whose
    sizes contain no object with a repeated key). *)
Definition cells_consistent (m : PuzzleModel) : bool :=
  forallb (fun rc =>
    let cell := cell_at (grid m) (fst rc) (snd rc) in
    negb (is_occupied cell) ||
    match image cell with Some i => image_eqb i i | None => false end)
    (region_cells (mkQRect 0 0 (cols m) (rows m))).

Definition consistentP (m : PuzzleModel) : Prop :=
  forall r c, 0 <= r < rows m -> 0 <= c < cols m ->
    is_occupied (cell_at (grid m) r c) = true ->
    exists i, image (cell_at (grid m) r c) = Some i /\ image_eqb i i = true.

(** Every image of the pools and of the grid has a path for which
    [path_exists] holds. *)
Definition images_exist (path_exists : string -> bool) (m : PuzzleModel) : Prop :=
  Forall (fun i => path_exists (path i) = true) (used_images m) /\
  Forall (fun i => path_exists (path i) = true) (unused_images m) /\
  Forall (Forall (fun cell => forall i, image cell = Some i -> path_exists (path i) = true))
    (grid m).

(** ** main_window.py and region_editor_window.py: checks before an edit *)

(** The check of [_on_cell_clicked] (main_window.py) before it places
    [selected_image] at the free cell [(row, col)]: whether a cell of the
    Portrait span (cut at the last row) is occupied and holds an image. *)
Definition will_replace (m : PuzzleModel) (row col : Z) (selected_image : ImageInfo) : bool :=
  match orientation selected_image with
  | VERTICAL =>
      existsb (fun r => match get_cell m r col with
                        | Some check_cell => is_occupied check_cell && match image check_cell with Some _ => true | None => false end
                        | None => false
                        end)
        (range row (Z.min (row + VERTICAL_IMAGE_SPAN) (rows m)))
  | HORIZONTAL => false
  end.

(** [_update_selected_area] (region_editor_window.py): the selection built
    from the four spin boxes, cut at the last row and column. *)
Definition update_selected_area (m : PuzzleModel) (start_row start_col nrows ncols : Z) : QRect :=
  let end_row := Z.min (start_row + nrows) (rows m) in
  let end_col := Z.min (start_col + ncols) (cols m) in
  mkQRect start_col start_row (end_col - start_col) (end_row - start_row).

(* ================================================================== *)
(** * Proofs *)

(** ** Lists and grids *)

Lemma length_update_nth {A : Type} n (f : A -> A) l :
  List.length (update_nth n f l) = List.length l.
Proof.
  revert n; induction l as [|x l IH]; intros [|n]; simpl; auto.
Qed.

Lemma nth_update_nth {A : Type} n i (f : A -> A) l d :
  nth i (update_nth n f l) d =
  if Nat.eqb i n && Nat.ltb n (List.length l) then f (nth i l d) else nth i l d.
Proof.
  revert n i; induction l as [|x l IH]; intros [|n] [|i]; simpl; auto;
    try (rewrite IH; reflexivity).
  destruct (Nat.eqb i n); reflexivity.
Qed.

Lemma Forall_update_nth {A : Type} (P : A -> Prop) n f l :
  Forall P l -> (forall x, P x -> P (f x)) -> Forall P (update_nth n f l).
Proof.
  intros HP Hf; revert n; induction HP as [|x l Hx Hl IH]; intros [|n]; simpl;
    constructor; auto.
Qed.

Lemma to_nat_eqb a b : 0 <= a -> 0 <= b -> Nat.eqb (Z.to_nat a) (Z.to_nat b) = Z.eqb a b.
Proof.
  intros Ha Hb. destruct (Nat.eqb_spec (Z.to_nat a) (Z.to_nat b));
    destruct (Z.eqb_spec a b); auto; lia.
Qed.

Lemma shape_row_length g nr nc n :
  shape g nr nc -> (n < List.length g)%nat -> Z.of_nat (List.length (nth n g [])) = nc.
Proof.
  intros [_ HF] Hn. rewrite Forall_forall in HF. apply HF, nth_In, Hn.
Qed.

Lemma set_cell_shape g nr nc r c f : shape g nr nc -> shape (set_cell g r c f) nr nc.
Proof.
  intros [Hl HF]. unfold set_cell. split.
  - rewrite length_update_nth. exact Hl.
  - apply Forall_update_nth; auto. intros rw Hrw. rewrite length_update_nth. exact Hrw.
Qed.

Lemma cell_at_set_cell g nr nc r c f r' c' :
  shape g nr nc -> 0 <= r < nr -> 0 <= c < nc -> 0 <= r' -> 0 <= c' ->
  cell_at (set_cell g r c f) r' c' =
  if (r' =? r) && (c' =? c) then f (cell_at g r c) else cell_at g r' c'.
Proof.
  intros Hs Hr Hc Hr' Hc'.
  assert (Hlen : (Z.to_nat r < List.length g)%nat) by (destruct Hs; lia).
  assert (Hrow := shape_row_length g nr nc (Z.to_nat r) Hs Hlen).
  unfold cell_at, set_cell. rewrite nth_update_nth, to_nat_eqb by lia.
  rewrite (proj2 (Nat.ltb_lt _ _) Hlen).
  destruct (Z.eqb_spec r' r) as [->|Hne]; simpl.
  - rewrite nth_update_nth, to_nat_eqb by lia.
    assert (Hlc : (Z.to_nat c < List.length (nth (Z.to_nat r) g []))%nat) by lia.
    rewrite (proj2 (Nat.ltb_lt _ _) Hlc).
    destruct (Z.eqb_spec c' c) as [->|]; simpl; reflexivity.
  - reflexivity.
Qed.

Lemma range_0_3 : range 0 3 = [0; 1; 2].
Proof. reflexivity. Qed.

(** The three [set_cell]s of a Portrait placement. *)
Lemma place_cells_vertical g r c img :
  orientation img = VERTICAL ->
  place_cells g r c img =
  set_cell (set_cell (set_cell g r c (occupy img true None))
                     (r + 1) c (occupy img false (Some (r, c))))
           (r + 2) c (occupy img false (Some (r, c))).
Proof.
  intros Hv. unfold place_cells. rewrite Hv, range_0_3. simpl.
  rewrite Z.add_0_r. reflexivity.
Qed.

Lemma can_place_vertical_iff m r c img :
  orientation img = VERTICAL ->
  can_place_image m r c img = true <-> portrait_span_free m r c.
Proof.
  intros Hv. unfold can_place_image, in_bounds, portrait_span_free. rewrite Hv, range_0_3.
  simpl. rewrite Z.add_0_r.
  destruct (Z.ltb_spec r 0); destruct (Z.geb_spec r (rows m));
    destruct (Z.ltb_spec c 0); destruct (Z.geb_spec c (cols m)); simpl;
    try (split; [discriminate | intros; lia]).
  destruct (Z.geb_spec (r + 2) (rows m)); [split; [discriminate | intros; lia] |].
  split.
  - intros Hb. rewrite negb_true_iff in Hb.
    repeat rewrite orb_false_iff in Hb. destruct Hb as (Hz0 & Hz1 & Hz2 & _).
    repeat split; try lia.
    intros i Hi. assert (Hi3 : i = 0 \/ i = 1 \/ i = 2) by lia.
    destruct Hi3 as [-> | [-> | ->]]; [rewrite Z.add_0_r | |]; assumption.
  - intros (_ & _ & _ & Hf).
    rewrite <- (Z.add_0_r r) at 1.
    rewrite (Hf 0), (Hf 1), (Hf 2) by lia. reflexivity.
Qed.

Lemma range_length a b : List.length (range a b) = Z.to_nat (b - a).
Proof. unfold range. rewrite length_map, length_seq. reflexivity. Qed.

Lemma initialize_grid_shape nr nc :
  0 <= nr -> 0 <= nc -> shape (initialize_grid nr nc) nr nc.
Proof.
  intros Hr Hc. unfold initialize_grid. split.
  - rewrite length_map, range_length. lia.
  - apply Forall_forall. intros rw Hin. apply in_map_iff in Hin as (r & <- & _).
    rewrite length_map, range_length. lia.
Qed.

Ltac cell_simpl nr nc :=
  repeat (rewrite (cell_at_set_cell _ nr nc) by
            (first [ (repeat apply set_cell_shape; assumption) | lia ])).

Ltac split_eqb :=
  repeat match goal with |- context [?a =? ?b] => destruct (Z.eqb_spec a b) end;
  simpl; subst; try reflexivity; try lia.

(** ** C1 *)

(** C1: on a grid of [rows] lists of [cols] cells, placing a Portrait
    image at [(r, c)] succeeds exactly when [r + 2 < rows] and the three
    cells [(r, c)], [(r+1, c)], [(r+2, c)] exist and are unoccupied
    ([can_place_image] gives the same answer). After a successful
    placement [(r, c)] holds the image as the main cell, the two cells
    below hold the same image as non-main cells pointing at [(r, c)], and
    every other cell is unchanged; when the condition fails,
    [can_place_image] and [place_image] return false and the model is
    returned unchanged. *)
Theorem place_image_portrait_spec (m : PuzzleModel) (r c : Z) (img : ImageInfo)
  (Hshape : grid_shape m) (Hv : orientation img = VERTICAL) :
  (can_place_image m r c img = true <-> portrait_span_free m r c) /\
  (fst (place_image m r c img) = true <-> portrait_span_free m r c) /\
  (portrait_span_free m r c ->
     let m' := snd (place_image m r c img) in
     rows m' = rows m /\ cols m' = cols m /\ grid_shape m' /\
     used_images m' <> [] /\
     forall r' c', 0 <= r' < rows m -> 0 <= c' < cols m ->
       cell_at (grid m') r' c' =
       if (c' =? c) && (r' =? r) then occupy img true None (cell_at (grid m) r' c')
       else if (c' =? c) && ((r' =? r + 1) || (r' =? r + 2))
       then occupy img false (Some (r, c)) (cell_at (grid m) r' c')
       else cell_at (grid m) r' c') /\
  (~ portrait_span_free m r c ->
     can_place_image m r c img = false /\ place_image m r c img = (false, m)).
Proof.
  pose proof (can_place_vertical_iff m r c img Hv) as Hc.
  split; [exact Hc |]. split.
  { rewrite <- Hc. unfold place_image.
    destruct (can_place_image m r c img); simpl; tauto. }
  split.
  - intros Hf. pose proof Hf as Hf'. apply Hc in Hf'.
    unfold place_image. rewrite Hf'. simpl.
    rewrite place_cells_vertical by exact Hv.
    destruct Hf as (Hr0 & Hr2 & Hcb & _).
    unfold grid_shape in Hshape.
    split; [reflexivity |]. split; [reflexivity |]. split; [| split].
    + unfold grid_shape; simpl. repeat apply set_cell_shape. exact Hshape.
    + destruct (img_in img (used_images m)) eqn:Hin.
      * unfold img_in in Hin. destruct (used_images m); [discriminate | congruence].
      * destruct (used_images m); discriminate.
    + intros r' c' Hr' Hc'. cell_simpl (rows m) (cols m). split_eqb.
  - intros Hn. assert (E : can_place_image m r c img = false).
    { apply not_true_is_false. intros H. apply Hn, Hc, H. }
    split; [exact E |]. unfold place_image. rewrite E. reflexivity.
Qed.

(** Scenario C of the specification: a Portrait at row 11 of a 13-row grid. *)
Lemma place_image_portrait_spec_witness :
  place_image (PuzzleModel_init 13 10) 11 0 sample_portrait2
  = (false, PuzzleModel_init 13 10).
Proof.
  assert (Hs : grid_shape (PuzzleModel_init 13 10))
    by (apply initialize_grid_shape; simpl; lia).
  destruct (place_image_portrait_spec (PuzzleModel_init 13 10) 11 0 sample_portrait2
              Hs eq_refl) as (_ & _ & _ & H4).
  apply H4. intros (_ & Hr & _). simpl in Hr. lia.
Defined.

(** ** C10 *)

(** C10: [resize_grid] keeps the unused list as a prefix, in its order,
    appends after it the image of every main cell in row-major order,
    empties the used list and keeps [image_directory]; every image that
    was unused or sat on a main cell is unused afterwards. *)
Theorem resize_grid_frame (m : PuzzleModel) (nrows ncols : Z) :
  let m' := resize_grid m nrows ncols in
  unused_images m' = unused_images m ++ main_images (grid m) /\
  image_directory m' = image_directory m /\
  used_images m' = [] /\
  (forall img,
     In img (unused_images m) \/
     (exists rw cell, In rw (grid m) /\ In cell rw /\
                      image cell = Some img /\ is_main_cell cell = true) ->
     In img (unused_images m')).
Proof.
  simpl. split; [reflexivity |]. split; [reflexivity |]. split; [reflexivity |].
  intros img [Hin | (rw & cell & Hrw & Hcell & Himg & Hmain)]; apply in_or_app.
  - left; exact Hin.
  - right. unfold main_images. apply in_flat_map. exists rw. split; [exact Hrw |].
    apply in_flat_map. exists cell. split; [exact Hcell |].
    unfold cell_main_image. rewrite Himg, Hmain. left; reflexivity.
Qed.

(** ** C2 *)

(** C2 as stated fails in the preview: [config.calculate_spacing] takes
    the Portrait height to be exactly three cell heights and returns 0,
    so at the preview cell height 90 the stack [3*90 + 2*0 = 270] is
    [1170/81] (about 14.4 pixels) short of [90 * 256 / 81]. *)
Lemma spacing_preview_counterexample :
  config_calculate_spacing 90 = 0 /\
  Z.abs (81 * (3 * 90 + 2 * config_calculate_spacing 90) - 256 * 90) = 1170.
Proof. split; reflexivity. Qed.

(** C2 (amended): the preview spacing [config.calculate_spacing] is 0
    for every cell height; the export spacing
    [PuzzleExporter.calculate_spacing] is at least 1 and, for every
    [cell_height > 0], [3 * cell_height + 2 * spacing] lies within 2
    pixels of [cell_height * 256 / 81] (scaled by 81 below). *)
Theorem spacing_preview_zero_export_bounded (h : Z) (Hh : 0 < h) :
  config_calculate_spacing h = 0 /\
  1 <= exporter_calculate_spacing h /\
  Z.abs (81 * (3 * h + 2 * exporter_calculate_spacing h) - 256 * h) < 162.
Proof.
  unfold config_calculate_spacing, exporter_calculate_spacing, VERTICAL_IMAGE_SPAN.
  split.
  - replace (h * 3 - 3 * h) with 0 by ring. reflexivity.
  - cbv zeta.
    set (v := h * 256 / 81). set (k := (v - 3 * h) / 2).
    assert (81 * v <= h * 256 < 81 * v + 81) by (subst v; Z.div_mod_to_equations; lia).
    assert (2 * k <= v - 3 * h < 2 * k + 2) by (subst k; Z.div_mod_to_equations; lia).
    destruct (Z.max_spec k 1) as [(Hl & ->) | (Hl & ->)]; lia.
Qed.

Lemma spacing_preview_zero_export_bounded_witness :
  config_calculate_spacing 90 = 0 /\ 1 <= exporter_calculate_spacing 90 /\
  Z.abs (81 * (3 * 90 + 2 * exporter_calculate_spacing 90) - 256 * 90) < 162.
Proof. apply spacing_preview_zero_export_bounded. lia. Defined.

(** ** C9 *)

Lemma img_in_app x l1 l2 : img_in x (l1 ++ l2) = img_in x l1 || img_in x l2.
Proof. unfold img_in. apply existsb_app. Qed.

Lemma image_eqb_int_refl p o w h :
  image_eqb (mkImageInfo p o (JInt w) (JInt h)) (mkImageInfo p o (JInt w) (JInt h)) = true.
Proof.
  unfold image_eqb. simpl. rewrite String.eqb_refl, !Z.eqb_refl.
  destruct o; reflexivity.
Qed.

Lemma load_entry_prefix acc e :
  exists l, unused_images (snd (load_entry acc e)) = unused_images (snd acc) ++ l.
Proof.
  destruct acc as [n m]. unfold load_entry.
  destruct (existsb _ SUPPORTED_IMAGE_FORMATS); [| exists []; rewrite app_nil_r; reflexivity].
  destruct (entry_size e) as [[w h] |]; [| exists []; rewrite app_nil_r; reflexivity].
  destruct (w >? h); [| destruct (h >? w)]; cbv iota beta; try (exists []; rewrite app_nil_r; reflexivity).
  all: match goal with |- context [negb (img_in ?i ?l)] => destruct (img_in i l) end;
    simpl; [exists []; rewrite app_nil_r; reflexivity | eexists; reflexivity].
Qed.

Lemma fold_load_entry_prefix es :
  forall acc, exists l,
    unused_images (snd (fold_left load_entry es acc)) = unused_images (snd acc) ++ l.
Proof.
  induction es as [| e es IH]; intros acc; cbn [fold_left].
  - exists []. rewrite app_nil_r. reflexivity.
  - destruct (IH (load_entry acc e)) as (l2 & H2).
    destruct (load_entry_prefix acc e) as (l1 & H1).
    exists (l1 ++ l2). rewrite H2, H1, app_assoc. reflexivity.
Qed.

Lemma load_entry_contains acc e w h :
  In (string_lower (entry_suffix e)) SUPPORTED_IMAGE_FORMATS ->
  entry_size e = Some (w, h) -> w <> h ->
  img_in (mkImageInfo (entry_path e) (if h <? w then HORIZONTAL else VERTICAL) (JInt w) (JInt h))
    (unused_images (snd (load_entry acc e))) = true.
Proof.
  intros Hsup Hsz Hne. destruct acc as [n m]. unfold load_entry.
  replace (existsb (String.eqb (string_lower (entry_suffix e))) SUPPORTED_IMAGE_FORMATS)
    with true
    by (symmetry; apply existsb_exists; exists (string_lower (entry_suffix e));
        split; [exact Hsup | apply String.eqb_refl]).
  rewrite Hsz.
  destruct (w >? h) eqn:Hwh; [| destruct (h >? w) eqn:Hhw]; cbv iota beta;
    [| | lia].
  - replace (h <? w) with true by lia.
    destruct (img_in _ (unused_images m)) eqn:E; simpl; [exact E |].
    rewrite img_in_app. simpl. rewrite image_eqb_int_refl, orb_true_r. reflexivity.
  - replace (h <? w) with false by lia.
    destruct (img_in _ (unused_images m)) eqn:E; simpl; [exact E |].
    rewrite img_in_app. simpl. rewrite image_eqb_int_refl, orb_true_r. reflexivity.
Qed.

Lemma fold_load_entry_contains es e w h :
  In e es ->
  In (string_lower (entry_suffix e)) SUPPORTED_IMAGE_FORMATS ->
  entry_size e = Some (w, h) -> w <> h ->
  forall acc,
  img_in (mkImageInfo (entry_path e) (if h <? w then HORIZONTAL else VERTICAL) (JInt w) (JInt h))
    (unused_images (snd (fold_left load_entry es acc))) = true.
Proof.
  intros Hin Hsup Hsz Hne. induction es as [| e' es IH]; [destruct Hin |].
  intros acc. cbn [fold_left]. destruct Hin as [-> | Hin].
  - destruct (fold_load_entry_prefix es (load_entry acc e)) as (l & ->).
    rewrite img_in_app, (load_entry_contains acc e w h Hsup Hsz Hne). reflexivity.
  - exact (IH Hin (load_entry acc e')).
Qed.

Lemma fold_load_entry_added (entries : list DirEntry) (u0 : list ImageInfo) :
  forall es acc added,
    incl es entries ->
    unused_images (snd acc) = u0 ++ added ->
    Forall (fun img => exists e w h, In e entries /\ entry_size e = Some (w, h) /\
              w <> h /\ img = mkImageInfo (entry_path e)
                               (if h <? w then HORIZONTAL else VERTICAL) (JInt w) (JInt h))
           added ->
    exists added',
      unused_images (snd (fold_left load_entry es acc)) = u0 ++ added' /\
      Forall (fun img => exists e w h, In e entries /\ entry_size e = Some (w, h) /\
                w <> h /\ img = mkImageInfo (entry_path e)
                                 (if h <? w then HORIZONTAL else VERTICAL) (JInt w) (JInt h))
             added'.
Proof.
  induction es as [| e es IH]; intros [lc m0] added Hincl Hu Hall; simpl.
  - exists added; split; assumption.
  - assert (Hstep : exists added1,
      unused_images (snd (load_entry (lc, m0) e)) = u0 ++ added1 /\
      Forall (fun img => exists e w h, In e entries /\ entry_size e = Some (w, h) /\
                w <> h /\ img = mkImageInfo (entry_path e)
                                 (if h <? w then HORIZONTAL else VERTICAL) (JInt w) (JInt h))
             added1).
    { unfold load_entry.
      destruct (existsb _ SUPPORTED_IMAGE_FORMATS); [| exists added; auto].
      destruct (entry_size e) as [[w h] |] eqn:Hsz; [| exists added; auto].
      assert (Hin : In e entries) by (apply Hincl; left; reflexivity).
      destruct (w >? h) eqn:Hwh; [| destruct (h >? w) eqn:Hhw]; cbv iota beta;
        [| | exists added; auto];
        match goal with |- context [negb ?b] => destruct b end; simpl;
        try (exists added; auto; fail).
      - exists (added ++ [mkImageInfo (entry_path e) HORIZONTAL (JInt w) (JInt h)]).
        simpl in Hu. rewrite Hu, <- app_assoc. split; [reflexivity |].
        apply Forall_app. split; [exact Hall |]. constructor; [| constructor].
        exists e, w, h. repeat split; [exact Hin | exact Hsz | lia |].
        replace (h <? w) with true by lia. reflexivity.
      - exists (added ++ [mkImageInfo (entry_path e) VERTICAL (JInt w) (JInt h)]).
        simpl in Hu. rewrite Hu, <- app_assoc. split; [reflexivity |].
        apply Forall_app. split; [exact Hall |]. constructor; [| constructor].
        exists e, w, h. repeat split; [exact Hin | exact Hsz | lia |].
        replace (h <? w) with false by lia. reflexivity. }
    destruct Hstep as (added1 & H1 & H2).
    apply (IH _ added1); [intros x Hx; apply Hincl; right; exact Hx | exact H1 | exact H2].
Qed.

(** C9 as stated fails: the loader compares width and height only, so a
    4:3 picture (800x600), whose ratio is 0.44 away from 16/9 and far
    from 9/16, is not rejected but loaded as a Landscape. *)
Lemma load_images_aspect_counterexample :
  unused_images (snd (load_images_from_directory (PuzzleModel_init 13 10) "/photos"
                        (Some [mkDirEntry "/photos/a.jpg" ".jpg" (Some (800, 600))])))
  = [mkImageInfo "/photos/a.jpg" HORIZONTAL (JInt 800) (JInt 600)] /\
  10 * Z.abs (9 * 800 - 16 * 600) > 9 * 600 /\
  10 * Z.abs (16 * 800 - 9 * 600) > 16 * 600.
Proof. repeat split; reflexivity. Qed.

(** C9 (amended): no aspect-ratio tolerance is applied. Loading a
    directory only appends to the unused list; every image it adds comes
    from a scanned file of size [w x h] with [w <> h], carries that size,
    and is a Landscape when [w > h] and a Portrait when [h > w]. Every
    readable file of the listing with a supported suffix and [w <> h]
    ends up in the unused list (appended, unless an equal image is
    already there): only square and unreadable files are skipped. *)
Theorem load_images_orientation_by_comparison
  (m : PuzzleModel) (dir_path : string) (entries : list DirEntry) :
  (exists added,
    unused_images (snd (load_images_from_directory m dir_path (Some entries)))
      = unused_images m ++ added /\
    Forall (fun img => exists e w h, In e entries /\ entry_size e = Some (w, h) /\
              w <> h /\ img = mkImageInfo (entry_path e)
                               (if h <? w then HORIZONTAL else VERTICAL) (JInt w) (JInt h))
           added) /\
  (forall e w h, In e entries ->
     In (string_lower (entry_suffix e)) SUPPORTED_IMAGE_FORMATS ->
     entry_size e = Some (w, h) -> w <> h ->
     img_in (mkImageInfo (entry_path e) (if h <? w then HORIZONTAL else VERTICAL)
               (JInt w) (JInt h))
       (unused_images (snd (load_images_from_directory m dir_path (Some entries)))) = true).
Proof.
  split.
  - unfold load_images_from_directory.
    apply (fold_load_entry_added entries (unused_images m) entries _ []).
    + intros x Hx; exact Hx.
    + simpl. rewrite app_nil_r. reflexivity.
    + constructor.
  - intros e w h Hin Hsup Hsz Hne. unfold load_images_from_directory.
    apply fold_load_entry_contains; assumption.
Qed.

(** ** C3 *)

(** C3: [save_state] reads [config.GRID_PREVIEW_WIDTH], which config.py
    does not define, while it builds the document; so for every model,
    file name and clock reading it raises [AttributeError] before any
    file is opened, and no state document is ever produced. *)
Theorem save_state_always_raises (now_stamp now_iso : string) (m : PuzzleModel)
  (custom_filename : option string) :
  save_state now_stamp now_iso m custom_filename
  = inl (AttributeError "GRID_PREVIEW_WIDTH").
Proof. reflexivity. Qed.

(** ** C5 *)

(** C5: a sequence of the three operations that leaves the pool
    invariant. On a 1x2 grid whose unused list is [[A]], place the
    Landscape [A] at (0,0) and again at (0,1) (nothing forbids placing
    it twice), resize to 1x2, which appends [A] once per main cell to
    the unused list, and place [A] at (0,0): [A] ends up in both pools. *)
Theorem pool_invariant_broken_by_resize :
  let A := sample_landscape in
  let m0 := mkPuzzleModel 1 2 (initialize_grid 1 2) [] [A] None in
  let m1 := snd (place_image m0 0 0 A) in
  let m2 := snd (place_image m1 0 1 A) in
  let m3 := resize_grid m2 1 2 in
  let m4 := snd (place_image m3 0 0 A) in
  pool_invariant m0 /\ fst (place_image m0 0 0 A) = true /\
  fst (place_image m1 0 1 A) = true /\ fst (place_image m3 0 0 A) = true /\
  unused_images m3 = [A; A] /\
  In A (used_images m4) /\ In A (unused_images m4).
Proof.
  cbv zeta. split; [| repeat split; try reflexivity; simpl; auto].
  split.
  - intros img [].
  - intros img. split; [intros [] |].
    intros (r & c & Hr & Hc & Himg). simpl in Hr, Hc.
    assert (r = 0) by lia; subst r.
    assert (c = 0 \/ c = 1) as [-> | ->] by lia; discriminate.
Qed.

(** ** C6 *)




(** ** C8 *)

Lemma main_extent_ge m r c x : main_extent m (r, c) = Some x -> r <= x.
Proof.
  unfold main_extent, VERTICAL_IMAGE_SPAN. destruct (get_cell m r c) as [cell |]; [| discriminate].
  destruct (is_occupied cell && is_main_cell cell); [| discriminate].
  intros H; injection H as <-.
  destruct (image cell) as [img |]; [destruct (orientation img) |]; lia.
Qed.

Lemma valid_area_step_eq m acc r c :
  valid_area_step m acc (r, c) =
  match main_extent m (r, c) with
  | None => acc
  | Some x => Some (match acc with
                    | None => (r, x, c, c)
                    | Some (a, b, d, e) => (Z.min a r, Z.max b x, Z.min d c, Z.max e c)
                    end)
  end.
Proof.
  unfold valid_area_step, main_extent, VERTICAL_IMAGE_SPAN.
  destruct (get_cell m r c) as [cell |]; [| reflexivity].
  destruct (is_occupied cell && is_main_cell cell); [| reflexivity].
  destruct acc as [[[[a b] d] e] |];
    destruct (image cell) as [img |]; try destruct (orientation img);
    repeat match goal with
           | |- Some _ = Some _ => f_equal
           | |- (_, _) = (_, _) => f_equal
           end; try reflexivity; lia.
Qed.

Ltac bound_witness Hold :=
  let Hi := fresh "Hi" in let Hx0 := fresh "Hx0" in let Heq := fresh "Heq" in
  destruct Hold as (r0 & c0 & x0 & Hi & Hx0 & Heq);
  exists r0, c0, x0; repeat split; [apply in_or_app; left; exact Hi | exact Hx0 | lia].

Lemma area_inv_step m cells acc r c :
  area_inv m cells acc ->
  area_inv m (cells ++ [(r, c)]) (valid_area_step m acc (r, c)).
Proof.
  rewrite valid_area_step_eq.
  assert (Hlast : In (r, c) (cells ++ [(r, c)])) by (apply in_or_app; right; left; reflexivity).
  destruct (main_extent m (r, c)) as [x |] eqn:Hx.
  - pose proof (main_extent_ge _ _ _ _ Hx) as Hrx.
    destruct acc as [[[[a b] d] e] |]; simpl.
    + intros (Hall & Ha & Hb & Hd & He). split; [| split; [| split; [| split]]].
      * intros r' c' x' Hin Hx'. apply in_app_or in Hin as [Hin | [Heq | []]].
        -- specialize (Hall _ _ _ Hin Hx'). lia.
        -- injection Heq as <- <-. rewrite Hx in Hx'. injection Hx' as <-. lia.
      * destruct (Z.min_spec a r) as [(_ & ->) | (_ & ->)];
          [bound_witness Ha | exists r, c, x; repeat split; auto].
      * destruct (Z.max_spec b x) as [(_ & ->) | (_ & ->)];
          [exists r, c, x; repeat split; auto | bound_witness Hb].
      * destruct (Z.min_spec d c) as [(_ & ->) | (_ & ->)];
          [bound_witness Hd | exists r, c, x; repeat split; auto].
      * destruct (Z.max_spec e c) as [(_ & ->) | (_ & ->)];
          [exists r, c, x; repeat split; auto | bound_witness He].
    + intros Hnone. split; [| split; [| split; [| split]]];
        try (exists r, c, x; repeat split; auto; fail).
      intros r' c' x' Hin Hx'. apply in_app_or in Hin as [Hin | [Heq | []]].
      * rewrite (Hnone _ Hin) in Hx'. discriminate.
      * injection Heq as <- <-. rewrite Hx in Hx'. injection Hx' as <-. lia.
  - destruct acc as [[[[a b] d] e] |]; simpl.
    + intros (Hall & Ha & Hb & Hd & He). split; [| split; [| split; [| split]]].
      * intros r' c' x' Hin Hx'. apply in_app_or in Hin as [Hin | [Heq | []]].
        -- exact (Hall _ _ _ Hin Hx').
        -- injection Heq as <- <-. rewrite Hx in Hx'. discriminate.
      * bound_witness Ha.
      * bound_witness Hb.
      * bound_witness Hd.
      * bound_witness He.
    + intros Hnone rc Hin. apply in_app_or in Hin as [Hin | [<- | []]]; auto.
Qed.

Lemma area_inv_fold m l :
  forall cells acc, area_inv m cells acc ->
  area_inv m (cells ++ l) (fold_left (valid_area_step m) l acc).
Proof.
  induction l as [| [r c] l IH]; intros cells acc H; simpl.
  - rewrite app_nil_r. exact H.
  - replace (cells ++ (r, c) :: l) with ((cells ++ [(r, c)]) ++ l)
      by (rewrite <- app_assoc; reflexivity).
    apply IH, area_inv_step, H.
Qed.

Lemma get_valid_area_inv m :
  area_inv m (region_cells (mkQRect 0 0 (cols m) (rows m))) (get_valid_area m).
Proof.
  unfold get_valid_area. apply (area_inv_fold m _ []). intros rc [].
Qed.

Lemma nth_map_range {A : Type} (f : Z -> A) (a b i : Z) (d : A) :
  0 <= i < b - a -> nth (Z.to_nat i) (map f (range a b)) d = f (a + i).
Proof.
  intros Hi. unfold range. rewrite map_map.
  rewrite nth_indep with (d' := f (a + Z.of_nat 0))
    by (rewrite length_map, length_seq; lia).
  rewrite (map_nth (fun x => f (a + Z.of_nat x))), seq_nth by lia.
  f_equal. lia.
Qed.

Lemma cell_at_initialize_grid nr nc r c :
  0 <= r < nr -> 0 <= c < nc -> cell_at (initialize_grid nr nc) r c = new_cell r c.
Proof.
  intros Hr Hc. unfold cell_at, initialize_grid.
  rewrite nth_map_range by lia. rewrite nth_map_range by lia. reflexivity.
Qed.

Lemma in_range x a b : In x (range a b) <-> a <= x < b.
Proof.
  unfold range. rewrite in_map_iff. split.
  - intros (i & <- & Hi). apply in_seq in Hi. lia.
  - intros Hx. exists (Z.to_nat (x - a)). split; [lia |]. apply in_seq. lia.
Qed.

Lemma in_region_cells q r c :
  In (r, c) (region_cells q) <->
  qtop q <= r < qtop q + qheight q /\ qleft q <= c < qleft q + qwidth q.
Proof.
  unfold region_cells. rewrite in_flat_map. split.
  - intros (r0 & Hr0 & Hin). apply in_map_iff in Hin as (c0 & Heq & Hc0).
    injection Heq as <- <-. rewrite in_range in Hr0, Hc0. auto.
  - intros (Hr & Hc). exists r. rewrite in_range. split; [exact Hr |].
    apply in_map_iff. exists c. rewrite in_range. auto.
Qed.

Lemma place_portrait_fresh nr nc r c img :
  orientation img = VERTICAL -> 0 <= r -> r + 2 < nr -> 0 <= c < nc ->
  snd (place_image (PuzzleModel_init nr nc) r c img) =
  mkPuzzleModel nr nc
    (set_cell (set_cell (set_cell (initialize_grid nr nc) r c (occupy img true None))
                        (r + 1) c (occupy img false (Some (r, c))))
              (r + 2) c (occupy img false (Some (r, c))))
    [img] [] None.
Proof.
  intros Hv Hr0 Hr2 Hc.
  assert (Hp : can_place_image (PuzzleModel_init nr nc) r c img = true).
  { apply can_place_vertical_iff; [exact Hv |].
    repeat split; simpl; try lia.
    intros i Hi. rewrite cell_at_initialize_grid by lia. reflexivity. }
  unfold place_image. rewrite Hp. simpl. rewrite place_cells_vertical by exact Hv.
  reflexivity.
Qed.

Lemma main_extent_single_portrait nr nc r c img r' c' x :
  orientation img = VERTICAL -> 0 <= r -> r + 2 < nr -> 0 <= c < nc ->
  main_extent (snd (place_image (PuzzleModel_init nr nc) r c img)) (r', c') = Some x <->
  r' = r /\ c' = c /\ x = r + 2.
Proof.
  intros Hv Hr0 Hr2 Hc.
  rewrite place_portrait_fresh by assumption.
  assert (Hs : shape (initialize_grid nr nc) nr nc) by (apply initialize_grid_shape; lia).
  unfold main_extent, get_cell, in_bounds; simpl.
  destruct (Z.ltb_spec r' 0); destruct (Z.geb_spec r' nr);
    destruct (Z.ltb_spec c' 0); destruct (Z.geb_spec c' nc); simpl;
    try (split; [discriminate | lia]).
  cell_simpl nr nc.
  destruct (Z.eqb_spec r' (r + 2)); destruct (Z.eqb_spec r' (r + 1));
    destruct (Z.eqb_spec r' r); destruct (Z.eqb_spec c' c); simpl;
    try lia;
    try (rewrite cell_at_initialize_grid by lia; simpl; split; [discriminate | lia]);
    unfold VERTICAL_IMAGE_SPAN; rewrite ?Hv; split;
    try discriminate; try (intros Hx; injection Hx as <-; lia);
    try (intros (-> & -> & ->); f_equal; lia).
Qed.

Lemma bounding_box_ordered m cells a b d e :
  bounding_box m cells a b d e -> a <= b /\ d <= e.
Proof.
  intros (Hall & _ & (rb & cb & xb & Hib & Hxb & ->) & _ & (re & ce & xe & Hie & Hxe & ->)).
  pose proof (Hall _ _ _ Hib Hxb). pose proof (Hall _ _ _ Hie Hxe).
  pose proof (main_extent_ge _ _ _ _ Hxb). lia.
Qed.

Lemma create_puzzle_image_size ps m cw ch dg cs si a b d e :
  get_valid_area m = Some (a, b, d, e) -> a <= b -> d <= e ->
  let sp := Z.max (match cs with Some s => s | None => exporter_calculate_spacing ch end) 0 in
  exists cv, create_puzzle_image ps m cw ch dg cs si = Some cv /\
    canvas_width cv = (e - d + 1) * cw + (e - d) * sp /\
    canvas_height cv = (b - a + 1) * ch + (b - a) * sp.
Proof.
  intros Hva Hab Hde sp. unfold create_puzzle_image. rewrite Hva.
  eexists; split; [reflexivity |]. cbn [canvas_width canvas_height]. fold sp.
  split.
  - destruct (Z.gtb_spec (e - d + 1) 1); [ring |].
    replace e with d by lia. ring.
  - destruct (Z.gtb_spec (b - a + 1) 1); [ring |].
    replace b with a by lia. ring.
Qed.

(** C8: [create_puzzle_image] fails exactly on a grid with no occupied
    main cell; otherwise its canvas spans the bounding box
    [(min_row, max_row, min_col, max_col)] of the occupied main cells
    (a Portrait counted with its three rows), found by [get_valid_area],
    and has width [valid_cols * cell_width + (valid_cols - 1) * spacing]
    and height [valid_rows * cell_height + (valid_rows - 1) * spacing],
    where [spacing] is the custom or computed spacing clamped at 0 (the
    spacing term vanishes when a dimension has one cell). For a fresh
    grid holding a single Portrait, the box is that Portrait and the
    canvas is [cell_width] by [3 * cell_height + 2 * spacing]. The size
    is the one passed to [QPixmap], whatever files load and whatever
    grid lines or indices are painted. *)
Theorem create_puzzle_image_canvas (pixmap_size : string -> option (positive * positive))
  (m : PuzzleModel) (cw ch : Z) (draw_grid : bool) (cs : option Z) (show_indices : bool) :
  let sp := Z.max (match cs with Some s => s | None => exporter_calculate_spacing ch end) 0 in
  let cells := region_cells (mkQRect 0 0 (cols m) (rows m)) in
  (create_puzzle_image pixmap_size m cw ch draw_grid cs show_indices = None <->
     forall rc, In rc cells -> main_extent m rc = None) /\
  (forall cv, create_puzzle_image pixmap_size m cw ch draw_grid cs show_indices = Some cv ->
     exists a b d e, get_valid_area m = Some (a, b, d, e) /\
       bounding_box m cells a b d e /\
       canvas_width cv = (e - d + 1) * cw + (e - d) * sp /\
       canvas_height cv = (b - a + 1) * ch + (b - a) * sp) /\
  (forall nr nc r c img,
     orientation img = VERTICAL -> 0 <= r -> r + 2 < nr -> 0 <= c < nc ->
     let m1 := snd (place_image (PuzzleModel_init nr nc) r c img) in
     get_valid_area m1 = Some (r, r + 2, c, c) /\
     exists cv, create_puzzle_image pixmap_size m1 cw ch draw_grid cs show_indices = Some cv /\
       canvas_width cv = cw /\ canvas_height cv = 3 * ch + 2 * sp).
Proof.
  intros sp cells. split; [| split].
  - pose proof (get_valid_area_inv m) as Hinv.
    destruct (get_valid_area m) as [[[[a b] d] e] |] eqn:Hva.
    + destruct (bounding_box_ordered _ _ _ _ _ _ Hinv) as [Hab Hde].
      destruct (create_puzzle_image_size pixmap_size m cw ch draw_grid cs show_indices a b d e Hva Hab Hde)
        as (cv & Hcv & _).
      rewrite Hcv. split; [discriminate |].
      intros Hall. exfalso.
      destruct Hinv as (_ & (r0 & c0 & x0 & Hi & Hx & _) & _).
      rewrite (Hall _ Hi) in Hx. discriminate.
    + split; [intros _; exact Hinv |].
      intros _. unfold create_puzzle_image. rewrite Hva. reflexivity.
  - intros cv Hcv. pose proof (get_valid_area_inv m) as Hinv.
    destruct (get_valid_area m) as [[[[a b] d] e] |] eqn:Hva.
    + destruct (bounding_box_ordered _ _ _ _ _ _ Hinv) as [Hab Hde].
      destruct (create_puzzle_image_size pixmap_size m cw ch draw_grid cs show_indices a b d e Hva Hab Hde)
        as (cv' & Hcv' & Hw & Hh).
      rewrite Hcv in Hcv'. injection Hcv' as <-.
      exists a, b, d, e. split; [reflexivity |]. split; [exact Hinv |].
      split; [exact Hw | exact Hh].
    + unfold create_puzzle_image in Hcv. rewrite Hva in Hcv. discriminate.
  - intros nr nc r c img Hv Hr0 Hr2 Hc m1.
    pose proof (get_valid_area_inv m1) as Hinv.
    assert (Hext : forall r' c' x, main_extent m1 (r', c') = Some x <->
                                   r' = r /\ c' = c /\ x = r + 2)
      by (intros; apply main_extent_single_portrait; assumption).
    assert (Hdims : rows m1 = nr /\ cols m1 = nc)
      by (unfold m1; rewrite place_portrait_fresh by assumption; split; reflexivity).
    assert (Hva : get_valid_area m1 = Some (r, r + 2, c, c)).
    { destruct (get_valid_area m1) as [[[[a b] d] e] |].
      - destruct Hinv as (_ & (r1 & c1 & x1 & _ & Hx1 & E1) & (r2 & c2 & x2 & _ & Hx2 & E2)
                          & (r3 & c3 & x3 & _ & Hx3 & E3) & (r4 & c4 & x4 & _ & Hx4 & E4)).
        apply Hext in Hx1 as (? & ? & ?). apply Hext in Hx2 as (? & ? & ?).
        apply Hext in Hx3 as (? & ? & ?). apply Hext in Hx4 as (? & ? & ?).
        subst. reflexivity.
      - exfalso.
        assert (Hin : In (r, c) (region_cells (mkQRect 0 0 (cols m1) (rows m1))))
          by (apply in_region_cells; simpl; lia).
        specialize (Hinv _ Hin). rewrite (proj2 (Hext r c (r + 2))) in Hinv by auto.
        discriminate. }
    split; [exact Hva |].
    destruct (create_puzzle_image_size pixmap_size m1 cw ch draw_grid cs show_indices r (r + 2) c c Hva ltac:(lia) ltac:(lia))
      as (cv & Hcv & Hw & Hh).
    exists cv. split; [exact Hcv |]. fold sp in Hw, Hh. split; [rewrite Hw | rewrite Hh]; ring.
Qed.

(** Scenario F of the specification: a single Portrait at (0, 0) of a
    13x10 grid, exported with cell size 160x90 (spacing 7). *)
Lemma create_puzzle_image_canvas_witness :
  exists cv,
    create_puzzle_image (fun _ => Some (1080%positive, 1920%positive))
      (snd (place_image (PuzzleModel_init 13 10) 0 0 sample_portrait))
      160 90 false None false = Some cv /\
    canvas_width cv = 160 /\ canvas_height cv = 3 * 90 + 2 * 7.
Proof.
  destruct (create_puzzle_image_canvas (fun _ => Some (1080%positive, 1920%positive))
              (PuzzleModel_init 13 10) 160 90 false None false)
    as (_ & _ & Hsingle).
  destruct (Hsingle 13 10 0 0 sample_portrait eq_refl ltac:(lia) ltac:(lia) ltac:(lia))
    as (_ & cv & Hcv & Hw & Hh).
  exists cv. split; [exact Hcv |]. split; [exact Hw |]. rewrite Hh. reflexivity.
Defined.

(** ** C7 *)

Lemma vertical_scan_fold_entries m cells :
  forall l acc, incl l cells ->
  Forall (fun v => exists r c cell img,
            In (r, c) cells /\ get_cell m r c = Some cell /\ is_occupied cell = true /\
            image cell = Some img /\ orientation img = VERTICAL /\
            start_row v = fst (get_main_cell_position m r c) /\
            end_row v = start_row v + 3) (snd acc) ->
  Forall (fun v => exists r c cell img,
            In (r, c) cells /\ get_cell m r c = Some cell /\ is_occupied cell = true /\
            image cell = Some img /\ orientation img = VERTICAL /\
            start_row v = fst (get_main_cell_position m r c) /\
            end_row v = start_row v + 3) (snd (fold_left (vertical_scan_step m) l acc)).
Proof.
  induction l as [| [r c] l IH]; intros [processed out] Hincl Hall; simpl; [exact Hall |].
  apply IH; [intros x Hx; apply Hincl; right; exact Hx |].
  unfold vertical_scan_step.
  destruct (get_cell m r c) as [cell |] eqn:Hg; [| exact Hall].
  destruct (is_occupied cell) eqn:Ho; [| exact Hall].
  destruct (image cell) as [img |] eqn:Hi; [| exact Hall].
  destruct (orientation img) eqn:Hv; [exact Hall |].
  destruct (get_main_cell_position m r c) as [mr mc] eqn:Hmp.
  destruct (existsb _ processed); [exact Hall |].
  simpl. apply Forall_app. split; [exact Hall |]. constructor; [| constructor].
  exists r, c, cell, img. repeat split; try assumption.
  - apply Hincl. left. reflexivity.
  - rewrite Hmp. reflexivity.
Qed.

Lemma get_vertical_images_entries m q :
  Forall (fun v => exists r c cell img,
            In (r, c) (region_cells q) /\ get_cell m r c = Some cell /\
            is_occupied cell = true /\ image cell = Some img /\ orientation img = VERTICAL /\
            start_row v = fst (get_main_cell_position m r c) /\
            end_row v = start_row v + 3) (get_vertical_images_in_region m q).
Proof.
  unfold get_vertical_images_in_region. destruct (qisNull q); [constructor |].
  apply vertical_scan_fold_entries; [intros x Hx; exact Hx | constructor].
Qed.

(** The accumulator of the expansion loop when every entry already lies
    within rows [top .. top + h - 1]: the top never moves and the bottom
    only moves from the inclusive [top + h - 1] to the exclusive
    [top + h]. *)
Lemma expand_fold_contained (top h : Z) :
  forall vs nt nb needed,
  Forall (fun v => top <= start_row v /\ end_row v <= top + h) vs ->
  nt = top ->
  (needed = false /\ nb = top + h - 1 \/ needed = true /\ nb = top + h) ->
  let '(nt', nb', needed') := fold_left expand_step vs (nt, nb, needed) in
  nt' = top /\ (needed' = false /\ nb' = top + h - 1 \/ needed' = true /\ nb' = top + h).
Proof.
  induction vs as [| v vs IH]; intros nt nb needed Hall Hnt Hnb; simpl.
  - auto.
  - inversion Hall as [| ? ? [Hs He] Hrest]; subst.
    unfold expand_step at 1.
    destruct (Z.ltb_spec (start_row v) top); [lia |].
    destruct (Z.gtb_spec (end_row v) nb); simpl.
    + apply IH; [exact Hrest | reflexivity |]. right. split; [reflexivity | lia].
    + apply IH; [exact Hrest | reflexivity | exact Hnb].
Qed.

(** C7 as stated fails: with Portraits at (3, 0) (rows 3-5) and (1, 1)
    (rows 1-3), the row-4 selection of columns 0-1 grows to rows 3-5 on
    the first expansion, which now meets the Portrait at (1, 1), and to
    rows 1-5 on the second: the expansion makes a single pass over the
    Portraits met by the original selection. *)
Lemma auto_expand_not_idempotent :
  let m := snd (place_image (snd (place_image (PuzzleModel_init 13 10) 3 0 sample_portrait))
                  1 1 sample_portrait2) in
  let q0 := mkQRect 0 4 2 1 in
  let q1 := snd (auto_expand_for_vertical_images m q0) in
  q1 = mkQRect 0 3 2 3 /\
  snd (auto_expand_for_vertical_images m q1) = mkQRect 0 1 2 5.
Proof. cbv zeta. split; vm_compute; reflexivity. Qed.

(** C7 (amended): the expansion keeps the left column and the width of
    the selection and changes only its top and height, in a single pass
    over the Portraits met by the selection, so it is not idempotent in
    general. A selection inside the grid that already contains the full
    three-row span of every Portrait it meets is left as it is. *)
Theorem auto_expand_single_pass (m : PuzzleModel) (q : QRect) :
  qleft (snd (auto_expand_for_vertical_images m q)) = qleft q /\
  qwidth (snd (auto_expand_for_vertical_images m q)) = qwidth q /\
  (0 <= qtop q -> qtop q + qheight q <= rows m ->
   (forall r c cell img,
      In (r, c) (region_cells q) -> get_cell m r c = Some cell ->
      is_occupied cell = true -> image cell = Some img -> orientation img = VERTICAL ->
      qtop q <= fst (get_main_cell_position m r c) /\
      fst (get_main_cell_position m r c) + VERTICAL_IMAGE_SPAN <= qtop q + qheight q) ->
   snd (auto_expand_for_vertical_images m q) = q).
Proof.
  unfold auto_expand_for_vertical_images.
  destruct (qisNull q); [auto |].
  pose proof (get_vertical_images_entries m q) as Hent.
  destruct (get_vertical_images_in_region m q) as [| v vs] eqn:Hv; [auto |].
  split; [| split].
  - destruct (fold_left expand_step (v :: vs) (qtop q, qbottom q, false))
      as [[nt nb] needed].
    destruct needed; reflexivity.
  - destruct (fold_left expand_step (v :: vs) (qtop q, qbottom q, false))
      as [[nt nb] needed].
    destruct needed; reflexivity.
  - intros Htop Hbot Hspan.
    assert (Hin : Forall (fun v => qtop q <= start_row v /\ end_row v <= qtop q + qheight q)
                    (v :: vs)).
    { eapply Forall_impl; [| exact Hent].
      intros v' (r & c & cell & img & Hrc & Hg & Ho & Hi & Hvo & Hs & He).
      specialize (Hspan r c cell img Hrc Hg Ho Hi Hvo). unfold VERTICAL_IMAGE_SPAN in Hspan.
      lia. }
    pose proof (expand_fold_contained (qtop q) (qheight q) (v :: vs) (qtop q) (qbottom q) false
                  Hin eq_refl) as Hfold.
    unfold qbottom in *.
    destruct (fold_left expand_step (v :: vs) (qtop q, qtop q + qheight q - 1, false))
      as [[nt nb] needed].
    destruct Hfold as (-> & [(-> & ->) | (-> & ->)]); [left; auto | reflexivity |].
    simpl. destruct q as [l t w h]; simpl in *. f_equal; lia.
Qed.

(** The rows 1-5 selection of the grid above holds both Portraits whole
    and is a fixed point of the expansion. *)
Lemma auto_expand_single_pass_witness :
  let m := snd (place_image (snd (place_image (PuzzleModel_init 13 10) 3 0 sample_portrait))
                  1 1 sample_portrait2) in
  snd (auto_expand_for_vertical_images m (mkQRect 0 1 2 5)) = mkQRect 0 1 2 5.
Proof.
  intros m.
  destruct (auto_expand_single_pass m (mkQRect 0 1 2 5)) as (_ & _ & Hfix).
  apply Hfix; [simpl; lia | vm_compute; discriminate |].
  intros r c cell img Hin Hg Ho Hi Hv. apply in_region_cells in Hin. simpl in Hin.
  assert (Hr : r = 1 \/ r = 2 \/ r = 3 \/ r = 4 \/ r = 5) by lia.
  assert (Hc : c = 0 \/ c = 1) by lia.
  destruct Hr as [-> | [-> | [-> | [-> | ->]]]]; destruct Hc as [-> | ->];
    first [ vm_compute; split; discriminate
          | vm_compute in Hg; injection Hg as <-; vm_compute in Ho; discriminate ].
Defined.

(** ** C4 *)

Lemma execute_region_move_order se m items :
  execute_region_move se m items =
  execute_region_move (fun _ => se (clear_positions items)) m items.
Proof. destruct items; reflexivity. Qed.

Lemma nodup_four (l : list (Z * Z)) a b c d :
  NoDup l -> (forall x, In x l <-> In x [a; b; c; d]) -> NoDup [a; b; c; d] ->
  exists x1 x2 x3 x4, l = [x1; x2; x3; x4] /\
    In x1 [a; b; c; d] /\ In x2 [a; b; c; d] /\ In x3 [a; b; c; d] /\ In x4 [a; b; c; d].
Proof.
  intros Hl Hin H4.
  assert (Hle : (List.length l <= List.length [a; b; c; d])%nat).
  { apply (NoDup_incl_length Hl). intros x Hx. apply Hin, Hx. }
  assert (Hge : (List.length [a; b; c; d] <= List.length l)%nat).
  { apply (NoDup_incl_length H4). intros x Hx. apply Hin, Hx. }
  destruct l as [| x1 [| x2 [| x3 [| x4 [| x5 l]]]]]; simpl in Hle, Hge; try lia.
  exists x1, x2, x3, x4. split; [reflexivity |].
  repeat split; apply Hin; simpl; auto.
Qed.

Ltac nodup_absurd H :=
  let Hn := fresh "Hn" in let Ht := fresh "Ht" in
  inversion H as [| ? ? Hn Ht]; subst;
  first [ exfalso; apply Hn; simpl; solve [auto 6] | nodup_absurd Ht ].

(** C4: on a 13x1 grid with a Portrait [P] on rows 9-11 and a Landscape
    [L] on row 12, select rows 10-12 and move down. The expansion starts
    its bottom at the inclusive last row 12 and compares it with the
    exclusive end 12 of [P]'s span, so it returns rows 9-11 and drops
    row 12. [L]'s destination, row 13, is outside the grid, yet it is
    never checked: the move runs, clears [L] because it sits on [P]'s new
    span, moves [P] to rows 10-12 and reports success. This holds for
    every iteration order of the set of positions to clear. *)
Theorem move_down_clears_landscape_below_region
  (set_elements : list (Z * Z) -> list (Z * Z))
  (Hset : forall l, NoDup (set_elements l) /\ (forall x, In x (set_elements l) <-> In x l)) :
  let m0 := snd (place_image (snd (place_image (PuzzleModel_init 13 1) 9 0 sample_portrait))
                   12 0 sample_landscape) in
  let sel := mkQRect 0 10 1 3 in
  image (cell_at (grid m0) 12 0) = Some sample_landscape /\
  is_main_cell (cell_at (grid m0) 12 0) = true /\
  snd (auto_expand_for_vertical_images m0 sel) = mkQRect 0 9 1 3 /\
  move_down set_elements m0 sel =
    (Executed true,
     mkPuzzleModel 13 1
       (grid (snd (place_image (PuzzleModel_init 13 1) 10 0 sample_portrait)))
       [sample_portrait] [sample_landscape] None,
     mkQRect 0 10 1 3).
Proof.
  intros m0 sel. split; [vm_compute; reflexivity |]. split; [vm_compute; reflexivity |].
  split; [vm_compute; reflexivity |].
  unfold move_down.
  replace (qisNull sel) with false by reflexivity. cbv iota zeta.
  replace (snd (auto_expand_for_vertical_images m0 sel)) with (mkQRect 0 9 1 3)
    by (vm_compute; reflexivity).
  match goal with |- context [collect_moves ?a ?b ?c ?d] =>
    replace (collect_moves a b c d) with (Some [mkMoveItem sample_portrait 9 0 10 0])
      by (vm_compute; reflexivity) end.
  unfold run_move. rewrite execute_region_move_order.
  replace (clear_positions [mkMoveItem sample_portrait 9 0 10 0])
    with [(9, 0); (10, 0); (11, 0); (10, 0); (11, 0); (12, 0)] by reflexivity.
  destruct (Hset [(9, 0); (10, 0); (11, 0); (10, 0); (11, 0); (12, 0)]) as [Hnd Hin].
  destruct (nodup_four _ (9, 0) (10, 0) (11, 0) (12, 0) Hnd) as
      (x1 & x2 & x3 & x4 & Heq & H1 & H2 & H3 & H4).
  { intros x. rewrite Hin. simpl. intuition. }
  { repeat constructor; simpl; intuition discriminate. }
  rewrite Heq. rewrite Heq in Hnd. clear Heq Hin Hset.
  destruct H1 as [<- | [<- | [<- | [<- | []]]]];
  destruct H2 as [<- | [<- | [<- | [<- | []]]]];
  destruct H3 as [<- | [<- | [<- | [<- | []]]]];
  destruct H4 as [<- | [<- | [<- | [<- | []]]]];
  first [ nodup_absurd Hnd | vm_compute; reflexivity ].
Qed.

(** The same run with the positions enumerated in insertion order. *)
Lemma move_down_clears_landscape_below_region_witness :
  let m0 := snd (place_image (snd (place_image (PuzzleModel_init 13 1) 9 0 sample_portrait))
                   12 0 sample_landscape) in
  fst (fst (move_down (nodup pos_eq_dec) m0 (mkQRect 0 10 1 3))) = Executed true /\
  image (cell_at (grid (snd (fst (move_down (nodup pos_eq_dec) m0 (mkQRect 0 10 1 3))))) 12 0)
    = Some sample_portrait.
Proof.
  intros m0.
  destruct (move_down_clears_landscape_below_region (nodup pos_eq_dec)
              (fun l => conj (NoDup_nodup pos_eq_dec l) (fun x => nodup_In pos_eq_dec l x)))
    as (_ & _ & _ & Hmove).
  fold m0 in Hmove. rewrite Hmove. split; vm_compute; reflexivity.
Defined.

(* ================================================================== *)
(** * Further properties of the code *)

Lemma clear_cell_idem img cell : clear_cell img (clear_cell img cell) = clear_cell img cell.
Proof.
  unfold clear_cell. destruct (opt_img_eqb (image cell) img) eqn:E; simpl; [reflexivity|].
  rewrite E. reflexivity.
Qed.

Lemma clear_step_cell g nr nc img r c r' c' :
  shape g nr nc -> 0 <= r < nr -> 0 <= c < nc -> 0 <= r' -> 0 <= c' ->
  cell_at (if opt_img_eqb (image (cell_at g r c)) img then set_cell g r c reset_cell else g) r' c'
  = if (r' =? r) && (c' =? c) then clear_cell img (cell_at g r c) else cell_at g r' c'.
Proof.
  intros Hs Hr Hc Hr' Hc'. unfold clear_cell.
  destruct (opt_img_eqb (image (cell_at g r c)) img) eqn:E.
  - rewrite (cell_at_set_cell g nr nc) by assumption. reflexivity.
  - destruct (Z.eqb_spec r' r); destruct (Z.eqb_spec c' c); subst; reflexivity.
Qed.

Lemma clear_step_shape g nr nc img r c :
  shape g nr nc ->
  shape (if opt_img_eqb (image (cell_at g r c)) img then set_cell g r c reset_cell else g) nr nc.
Proof.
  intros Hs. destruct (opt_img_eqb _ _); [apply set_cell_shape |]; exact Hs.
Qed.

Lemma clear_cols_spec img nr nc r :
  0 <= r < nr ->
  forall l g, shape g nr nc -> Forall (fun c => 0 <= c < nc) l ->
  let g' := fold_left (fun g c =>
      if opt_img_eqb (image (cell_at g r c)) img then set_cell g r c reset_cell else g) l g in
  shape g' nr nc /\
  forall r' c', 0 <= r' -> 0 <= c' ->
    cell_at g' r' c' =
    if (r' =? r) && existsb (Z.eqb c') l then clear_cell img (cell_at g r' c') else cell_at g r' c'.
Proof.
  intros Hr l; induction l as [| c l IH]; intros g Hs Hl g'; subst g'; simpl.
  - split; [exact Hs |]. intros r' c' _ _. rewrite andb_false_r. reflexivity.
  - inversion Hl as [| ? ? Hc Hl']; subst.
    destruct (IH _ (clear_step_shape g nr nc img r c Hs) Hl') as [Hs' Hcell].
    split; [exact Hs' |]. intros r' c' Hr' Hc'. rewrite (Hcell r' c' Hr' Hc').
    rewrite !(clear_step_cell g nr nc) by assumption.
    destruct (Z.eqb_spec r' r); destruct (Z.eqb_spec c' c); subst; simpl;
      try reflexivity.
    + destruct (existsb _ l); [apply clear_cell_idem | reflexivity].
Qed.

Lemma forall_range a b : Forall (fun x => a <= x < b) (range a b).
Proof. apply Forall_forall. intros x Hx. apply in_range, Hx. Qed.

Lemma existsb_range x a b : existsb (Z.eqb x) (range a b) = (a <=? x) && (x <? b).
Proof.
  destruct (existsb (Z.eqb x) (range a b)) eqn:E.
  - apply existsb_exists in E as (y & Hy & Hxy). apply Z.eqb_eq in Hxy. subst.
    apply in_range in Hy. symmetry. apply andb_true_iff. lia.
  - symmetry. apply not_true_iff_false. intros Hb. apply andb_true_iff in Hb.
    assert (Hin : In x (range a b)) by (apply in_range; lia).
    assert (existsb (Z.eqb x) (range a b) = true) by (apply existsb_exists; exists x; split; [exact Hin | apply Z.eqb_refl]).
    congruence.
Qed.

Lemma clear_rows_spec img nr nc :
  0 <= nc ->
  forall l g, shape g nr nc -> Forall (fun r => 0 <= r < nr) l ->
  let g' := fold_left (fun g r =>
      fold_left (fun g c =>
        if opt_img_eqb (image (cell_at g r c)) img then set_cell g r c reset_cell else g)
        (range 0 nc) g) l g in
  shape g' nr nc /\
  forall r' c', 0 <= r' -> 0 <= c' < nc ->
    cell_at g' r' c' =
    if existsb (Z.eqb r') l then clear_cell img (cell_at g r' c') else cell_at g r' c'.
Proof.
  intros Hnc l; induction l as [| r l IH]; intros g Hs Hl g'; subst g'; simpl.
  - split; [exact Hs |]. reflexivity.
  - inversion Hl as [| ? ? Hr Hl']; subst.
    destruct (clear_cols_spec img nr nc r Hr (range 0 nc) g Hs (forall_range 0 nc))
      as [Hs1 Hcell1].
    destruct (IH _ Hs1 Hl') as [Hs' Hcell].
    split; [exact Hs' |]. intros r' c' Hr' Hc'. rewrite (Hcell r' c' Hr' Hc').
    rewrite !(Hcell1 r' c') by lia. rewrite existsb_range.
    replace ((0 <=? c') && (c' <? nc)) with true by (symmetry; apply andb_true_iff; lia).
    destruct (Z.eqb_spec r' r); subst; simpl.
    + destruct (existsb _ l); [apply clear_cell_idem | reflexivity].
    + reflexivity.
Qed.

Lemma clear_image_cells_spec nr nc img g :
  shape g nr nc -> 0 <= nc ->
  shape (clear_image_cells nr nc img g) nr nc /\
  forall r c, 0 <= r < nr -> 0 <= c < nc ->
    cell_at (clear_image_cells nr nc img g) r c = clear_cell img (cell_at g r c).
Proof.
  intros Hs Hnc.
  destruct (clear_rows_spec img nr nc Hnc (range 0 nr) g Hs (forall_range 0 nr)) as [Hs' Hc].
  split; [exact Hs' |]. intros r c Hr Hcc. unfold clear_image_cells.
  rewrite Hc by lia. rewrite existsb_range.
  replace ((0 <=? r) && (r <? nr)) with true by (symmetry; apply andb_true_iff; lia).
  reflexivity.
Qed.

Lemma list_remove_absent x l : img_in x l = false -> list_remove x l = l.
Proof.
  induction l as [| y l IH]; simpl; [reflexivity |].
  intros H. apply orb_false_iff in H as [H1 H2]. rewrite H1, IH by exact H2. reflexivity.
Qed.

Lemma img_in_app_last x l : image_eqb x x = true -> img_in x (l ++ [x]) = true.
Proof.
  intros Hx. unfold img_in. rewrite existsb_app. simpl. rewrite Hx, orb_true_r. reflexivity.
Qed.

Lemma in_bounds_iff m r c : in_bounds m r c = true <-> 0 <= r < rows m /\ 0 <= c < cols m.
Proof.
  unfold in_bounds. destruct (Z.ltb_spec r 0); destruct (Z.geb_spec r (rows m));
    destruct (Z.ltb_spec c 0); destruct (Z.geb_spec c (cols m)); simpl;
    split; intros; try discriminate; try lia; reflexivity.
Qed.

(** X2: on an occupied in-bounds cell holding [img], [remove_image] returns [img], resets every cell holding an image equal to [img] and leaves the others, removes the first occurrence of [img] from the used pool, puts [img] in the unused pool, and keeps the dimensions and the directory. *)
Theorem remove_image_spec (m : PuzzleModel) (r c : Z) (img : ImageInfo)
  (Hshape : grid_shape m) (Hb : in_bounds m r c = true)
  (Hocc : is_occupied (cell_at (grid m) r c) = true)
  (Himg : image (cell_at (grid m) r c) = Some img) :
  let '(res, m') := remove_image m r c in
  res = Some img /\ rows m' = rows m /\ cols m' = cols m /\ grid_shape m' /\
  (forall r' c', 0 <= r' < rows m -> 0 <= c' < cols m ->
     cell_at (grid m') r' c' = clear_cell img (cell_at (grid m) r' c')) /\
  used_images m' = list_remove img (used_images m) /\
  (image_eqb img img = true -> img_in img (unused_images m') = true) /\
  image_directory m' = image_directory m.
Proof.
  unfold remove_image. rewrite Hb, Hocc, Himg. simpl.
  apply in_bounds_iff in Hb.
  destruct (clear_image_cells_spec (rows m) (cols m) img (grid m) Hshape ltac:(lia))
    as [Hs Hc].
  split; [reflexivity |]. split; [reflexivity |]. split; [reflexivity |].
  split; [exact Hs |]. split; [exact Hc |]. split; [| split; [| reflexivity]].
  - destruct (img_in img (used_images m)) eqn:E; [reflexivity |].
    symmetry. apply list_remove_absent, E.
  - intros Hrefl. destruct (img_in img (unused_images m)) eqn:E; [exact E |].
    apply img_in_app_last, Hrefl.
Qed.

Lemma remove_image_spec_witness :
  let m1 := snd (place_image (PuzzleModel_init 2 2) 0 0 sample_landscape) in
  grid_shape m1 /\ in_bounds m1 0 0 = true /\
  is_occupied (cell_at (grid m1) 0 0) = true /\
  image (cell_at (grid m1) 0 0) = Some sample_landscape /\
  (let '(res, m') := remove_image m1 0 0 in
   res = Some sample_landscape /\ rows m' = rows m1 /\ cols m' = cols m1 /\ grid_shape m' /\
   (forall r' c', 0 <= r' < rows m1 -> 0 <= c' < cols m1 ->
      cell_at (grid m') r' c' = clear_cell sample_landscape (cell_at (grid m1) r' c')) /\
   used_images m' = list_remove sample_landscape (used_images m1) /\
   (image_eqb sample_landscape sample_landscape = true ->
    img_in sample_landscape (unused_images m') = true) /\
   image_directory m' = image_directory m1).
Proof.
  intros m1.
  assert (Hs : grid_shape m1) by (split; [reflexivity | repeat constructor]).
  assert (Hb : in_bounds m1 0 0 = true) by reflexivity.
  assert (Ho : is_occupied (cell_at (grid m1) 0 0) = true) by reflexivity.
  assert (Hi : image (cell_at (grid m1) 0 0) = Some sample_landscape) by reflexivity.
  split; [exact Hs |]. split; [exact Hb |]. split; [exact Ho |]. split; [exact Hi |].
  exact (remove_image_spec m1 0 0 sample_landscape Hs Hb Ho Hi).
Defined.

(** X3: placing a Landscape image succeeds exactly when the position is in bounds and its cell is unoccupied; on failure the model is unchanged; on success only that cell changes (it holds the image as main cell), the image leaves the unused pool and enters the used pool. *)
Theorem place_image_landscape_spec (m : PuzzleModel) (r c : Z) (img : ImageInfo)
  (Hshape : grid_shape m) (Hh : orientation img = HORIZONTAL) :
  let '(ok, m') := place_image m r c img in
  (ok = true <-> in_bounds m r c = true /\ is_occupied (cell_at (grid m) r c) = false) /\
  (ok = false -> m' = m) /\
  (ok = true ->
     rows m' = rows m /\ cols m' = cols m /\ grid_shape m' /\
     (forall r' c', 0 <= r' < rows m -> 0 <= c' < cols m ->
        cell_at (grid m') r' c' =
        if (r' =? r) && (c' =? c) then occupy img true None (cell_at (grid m) r c)
        else cell_at (grid m) r' c') /\
     unused_images m' = list_remove img (unused_images m) /\
     (image_eqb img img = true -> img_in img (used_images m') = true) /\
     image_directory m' = image_directory m).
Proof.
  unfold place_image.
  assert (Hcan : can_place_image m r c img =
                 in_bounds m r c && negb (is_occupied (cell_at (grid m) r c))).
  { unfold can_place_image. rewrite Hh. destruct (in_bounds m r c); reflexivity. }
  rewrite Hcan.
  destruct (in_bounds m r c) eqn:Hb; simpl.
  2: { split; [split; [discriminate | intros [? _]; discriminate] |].
       split; [reflexivity | discriminate]. }
  destruct (is_occupied (cell_at (grid m) r c)) eqn:Ho; simpl.
  { split; [split; [discriminate | intros [_ ?]; discriminate] |].
    split; [reflexivity | discriminate]. }
  apply in_bounds_iff in Hb.
  split; [split; [intros _; split; reflexivity | reflexivity] |].
  split; [discriminate |]. intros _.
  unfold place_cells. rewrite Hh.
  split; [reflexivity |]. split; [reflexivity |].
  split; [apply set_cell_shape, Hshape |].
  split; [intros r' c' Hr' Hc'; apply (cell_at_set_cell _ (rows m) (cols m)); auto; lia |].
  split; [| split; [| reflexivity]].
  - destruct (img_in img (unused_images m)) eqn:E; [reflexivity |].
    symmetry. apply list_remove_absent, E.
  - intros Hrefl. destruct (img_in img (used_images m)) eqn:E; [exact E |].
    apply img_in_app_last, Hrefl.
Qed.

Lemma place_image_landscape_spec_witness :
  let m0 := PuzzleModel_init 2 2 in
  grid_shape m0 /\ orientation sample_landscape = HORIZONTAL /\
  (let '(ok, m') := place_image m0 1 1 sample_landscape in
  (ok = true <-> in_bounds m0 1 1 = true /\ is_occupied (cell_at (grid m0) 1 1) = false) /\
  (ok = false -> m' = m0) /\
  (ok = true ->
     rows m' = rows m0 /\ cols m' = cols m0 /\ grid_shape m' /\
     (forall r' c', 0 <= r' < rows m0 -> 0 <= c' < cols m0 ->
        cell_at (grid m') r' c' =
        if (r' =? 1) && (c' =? 1) then occupy sample_landscape true None (cell_at (grid m0) 1 1)
        else cell_at (grid m0) r' c') /\
     unused_images m' = list_remove sample_landscape (unused_images m0) /\
     (image_eqb sample_landscape sample_landscape = true ->
      img_in sample_landscape (used_images m') = true) /\
     image_directory m' = image_directory m0)).
Proof.
  intros m0.
  assert (Hs : grid_shape m0) by (split; [reflexivity | repeat constructor]).
  split; [exact Hs |]. split; [reflexivity |].
  exact (place_image_landscape_spec m0 1 1 sample_landscape Hs eq_refl).
Defined.

(** X4: after a successful Portrait placement at [(r, c)], [get_main_cell_position] maps each of the three cells of the span to [(r, c)]. *)
Theorem portrait_main_cell_position (m : PuzzleModel) (r c : Z) (img : ImageInfo)
  (Hshape : grid_shape m) (Hv : orientation img = VERTICAL)
  (Hok : fst (place_image m r c img) = true) :
  forall i, 0 <= i < 3 ->
  get_main_cell_position (snd (place_image m r c img)) (r + i) c = (r, c).
Proof.
  intros i Hi. unfold place_image in *.
  destruct (can_place_image m r c img) eqn:Hcan; [| discriminate]. simpl.
  apply (can_place_vertical_iff m r c img Hv) in Hcan as (Hr0 & Hr2 & Hc & _).
  rewrite place_cells_vertical by exact Hv.
  unfold get_main_cell_position, get_cell. simpl.
  replace (in_bounds _ (r + i) c) with true
    by (symmetry; apply in_bounds_iff; simpl; lia).
  unfold grid_shape in Hshape. cell_simpl (rows m) (cols m).
  assert (Hi3 : i = 0 \/ i = 1 \/ i = 2) by lia.
  destruct Hi3 as [-> | [-> | ->]]; split_eqb; f_equal; lia.
Qed.

Lemma portrait_main_cell_position_witness :
  let m0 := PuzzleModel_init 4 1 in
  grid_shape m0 /\ orientation sample_portrait = VERTICAL /\
  fst (place_image m0 0 0 sample_portrait) = true /\
  (forall i, 0 <= i < 3 ->
   get_main_cell_position (snd (place_image m0 0 0 sample_portrait)) (0 + i) 0 = (0, 0)).
Proof.
  intros m0.
  assert (Hs : grid_shape m0) by (split; [reflexivity | repeat constructor]).
  assert (Hok : fst (place_image m0 0 0 sample_portrait) = true) by (vm_compute; reflexivity).
  split; [exact Hs |]. split; [reflexivity |]. split; [exact Hok |].
  exact (portrait_main_cell_position m0 0 0 sample_portrait Hs eq_refl Hok).
Defined.

Lemma grid_ext g1 g2 nr nc :
  shape g1 nr nc -> shape g2 nr nc ->
  (forall r c, 0 <= r < nr -> 0 <= c < nc -> cell_at g1 r c = cell_at g2 r c) -> g1 = g2.
Proof.
  intros Hs1 Hs2 Hc.
  assert (Hl : List.length g1 = List.length g2) by (destruct Hs1, Hs2; lia).
  apply nth_ext with (d := []) (d' := []); [exact Hl |].
  intros n Hn.
  assert (Hn2 : (n < List.length g2)%nat) by lia.
  pose proof (shape_row_length g1 nr nc n Hs1 Hn) as Hr1.
  pose proof (shape_row_length g2 nr nc n Hs2 Hn2) as Hr2.
  apply nth_ext with (d := new_cell 0 0) (d' := new_cell 0 0); [lia |].
  intros k Hk.
  assert (Hrn : 0 <= Z.of_nat n < nr) by (destruct Hs1; lia).
  assert (Hkc : 0 <= Z.of_nat k < nc) by lia.
  specialize (Hc (Z.of_nat n) (Z.of_nat k) Hrn Hkc). unfold cell_at in Hc.
  rewrite !Nat2Z.id in Hc.
  rewrite nth_indep with (d' := new_cell (Z.of_nat n) (Z.of_nat k)) by exact Hk.
  rewrite Hc. apply nth_indep. lia.
Qed.

(** X5: on a fresh grid, placing an image and removing it from any cell of its span gives back the image and the empty grid, with the image in the unused pool. *)
Theorem place_remove_round_trip (nr nc r c : Z) (img : ImageInfo) (r' c' : Z)
  (Hcan : can_place_image (PuzzleModel_init nr nc) r c img = true)
  (Hrefl : image_eqb img img = true)
  (Hin : In (r', c') (span_cells img r c)) :
  remove_image (snd (place_image (PuzzleModel_init nr nc) r c img)) r' c' =
  (Some img, mkPuzzleModel nr nc (initialize_grid nr nc) [] [img] None).
Proof.
  assert (Hb : in_bounds (PuzzleModel_init nr nc) r c = true)
    by (unfold can_place_image in Hcan; destruct (in_bounds _ r c); [reflexivity | discriminate]).
  apply in_bounds_iff in Hb. simpl in Hb.
  assert (Hs0 : shape (initialize_grid nr nc) nr nc) by (apply initialize_grid_shape; lia).
  (* the placed grid, cell by cell *)
  assert (Hg1 : exists g1,
    snd (place_image (PuzzleModel_init nr nc) r c img) = mkPuzzleModel nr nc g1 [img] [] None /\
    shape g1 nr nc /\
    (forall x y, 0 <= x < nr -> 0 <= y < nc ->
       cell_at g1 x y =
       if existsb (fun p => (fst p =? x) && (snd p =? y)) (span_cells img r c)
       then occupy img (x =? r) (if x =? r then None else Some (r, c)) (new_cell x y)
       else new_cell x y) /\
    (forall x y, In (x, y) (span_cells img r c) -> 0 <= x < nr /\ 0 <= y < nc)).
  { unfold place_image. rewrite Hcan. simpl.
    destruct (orientation img) eqn:Ho.
    - unfold place_cells. rewrite Ho.
      eexists; split; [reflexivity |].
      split; [apply set_cell_shape, Hs0 |]. split.
      + intros x y Hx Hy. unfold span_cells. rewrite Ho. simpl.
        cell_simpl nr nc.
        repeat match goal with |- context [?a =? ?b] => destruct (Z.eqb_spec a b) end;
          simpl; subst; try lia; try reflexivity;
          rewrite cell_at_initialize_grid by lia; reflexivity.
      + unfold span_cells. rewrite Ho. intros x y [Heq | []]. injection Heq as <- <-. lia.
    - apply (can_place_vertical_iff _ r c img Ho) in Hcan as (Hr0 & Hr2 & Hc & _).
      simpl in Hr2, Hc.
      rewrite place_cells_vertical by exact Ho.
      eexists; split; [reflexivity |].
      split; [repeat apply set_cell_shape; exact Hs0 |]. split.
      + intros x y Hx Hy. unfold span_cells. rewrite Ho.
        replace (range r (r + 3)) with [r; r + 1; r + 2]
          by (unfold range; replace (r + 3 - r) with 3 by lia; simpl; rewrite Z.add_0_r; reflexivity).
        simpl. cell_simpl nr nc.
        rewrite ?andb_false_r, ?orb_false_r.
        repeat match goal with |- context [?a =? ?b] => destruct (Z.eqb_spec a b) end;
          simpl; subst; try lia; try reflexivity;
          try (rewrite cell_at_initialize_grid by lia; reflexivity);
          try (f_equal; lia).
      + unfold span_cells. rewrite Ho. intros x y Hxy.
        apply in_map_iff in Hxy as (i & Heq & Hi). injection Heq as <- <-.
        apply in_range in Hi. lia. }
  destruct Hg1 as (g1 & -> & Hs1 & Hcell & Hspan).
  destruct (Hspan _ _ Hin) as [Hx Hy].
  assert (Hex : existsb (fun p => (fst p =? r') && (snd p =? c')) (span_cells img r c) = true).
  { apply existsb_exists. exists (r', c'). split; [exact Hin |]. simpl. rewrite !Z.eqb_refl. reflexivity. }
  unfold remove_image. simpl.
  replace (in_bounds _ r' c') with true by (symmetry; apply in_bounds_iff; simpl; lia).
  simpl. rewrite (Hcell r' c' Hx Hy), Hex. simpl.
  rewrite Hrefl. simpl.
  f_equal. f_equal.
  apply (grid_ext _ _ nr nc); [apply clear_image_cells_spec; [exact Hs1 | lia] | exact Hs0 |].
  intros x y Hx' Hy'.
  destruct (clear_image_cells_spec nr nc img g1 Hs1 ltac:(lia)) as [_ Hcl].
  rewrite Hcl, Hcell, cell_at_initialize_grid by assumption.
  unfold clear_cell.
  destruct (existsb (fun p => (fst p =? x) && (snd p =? y)) (span_cells img r c));
    cbn [opt_img_eqb image occupy new_cell]; [rewrite Hrefl; reflexivity | reflexivity].
Qed.

Lemma place_remove_round_trip_witness :
  can_place_image (PuzzleModel_init 4 1) 0 0 sample_portrait = true /\
  image_eqb sample_portrait sample_portrait = true /\
  In (1, 0) (span_cells sample_portrait 0 0) /\
  remove_image (snd (place_image (PuzzleModel_init 4 1) 0 0 sample_portrait)) 1 0 =
  (Some sample_portrait, mkPuzzleModel 4 1 (initialize_grid 4 1) [] [sample_portrait] None).
Proof.
  assert (H1 : can_place_image (PuzzleModel_init 4 1) 0 0 sample_portrait = true)
    by (vm_compute; reflexivity).
  assert (H2 : image_eqb sample_portrait sample_portrait = true) by (vm_compute; reflexivity).
  assert (H3 : In (1, 0) (span_cells sample_portrait 0 0)) by (simpl; auto).
  split; [exact H1 |]. split; [exact H2 |]. split; [exact H3 |].
  exact (place_remove_round_trip 4 1 0 0 sample_portrait 1 0 H1 H2 H3).
Defined.

Lemma load_entry_cases n m e :
  load_entry (n, m) e = (n, m) \/
  exists img, img_in img (unused_images m) = false /\
    load_entry (n, m) e = (n + 1, with_pools m (used_images m) (unused_images m ++ [img])).
Proof.
  unfold load_entry.
  destruct (existsb _ SUPPORTED_IMAGE_FORMATS); [| left; reflexivity].
  destruct (entry_size e) as [[w h] |]; [| left; reflexivity].
  destruct (w >? h); [| destruct (h >? w)]; cbv iota beta; try (left; reflexivity).
  all: match goal with |- context [negb (img_in ?i ?l)] => destruct (img_in i l) eqn:E end;
    simpl; try (left; reflexivity).
  all: right; eexists; split; [exact E | reflexivity].
Qed.

Lemma fold_load_entry_spec es :
  forall n m,
  exists added,
    fold_left load_entry es (n, m) =
      (n + Z.of_nat (List.length added),
       with_pools m (used_images m) (unused_images m ++ added)) /\
    (forall a x b, added = a ++ x :: b -> img_in x (unused_images m ++ a) = false).
Proof.
  induction es as [| e es IH]; intros n m; cbn [fold_left].
  - exists []. split.
    + rewrite Z.add_0_r, app_nil_r. destruct m; reflexivity.
    + intros [] x b Hab; discriminate.
  - destruct (load_entry_cases n m e) as [-> | (img & Hnot & ->)].
    + exact (IH n m).
    + destruct (IH (n + 1) (with_pools m (used_images m) (unused_images m ++ [img])))
        as (added & Hf & Hnd).
      exists (img :: added). rewrite Hf. simpl. split.
      * f_equal; [lia |]. rewrite <- app_assoc. reflexivity.
      * intros [| y a] x b Hab; simpl in Hab; injection Hab as Hy Hab.
        -- subst x. rewrite app_nil_r. exact Hnot.
        -- subst y. rewrite <- (Hnd a x b Hab). simpl. rewrite <- app_assoc. reflexivity.
Qed.

(** X6: [load_images_from_directory] with no directory adds nothing and returns 0; with a directory it appends to the unused pool images not already there (nor earlier in the same scan), returns their number, sets the image directory, and leaves the grid and the used pool unchanged. *)
Theorem load_images_count (m : PuzzleModel) (dir_path : string)
  (directory : option (list DirEntry)) :
  let '(n, m') := load_images_from_directory m dir_path directory in
  match directory with
  | None => n = 0 /\ m' = m
  | Some _ =>
      exists added,
        unused_images m' = unused_images m ++ added /\ n = Z.of_nat (List.length added) /\
        rows m' = rows m /\ cols m' = cols m /\ grid m' = grid m /\
        used_images m' = used_images m /\ image_directory m' = Some dir_path /\
        (forall a x b, added = a ++ x :: b -> img_in x (unused_images m ++ a) = false)
  end.
Proof.
  destruct directory as [es |]; simpl; [| split; reflexivity].
  destruct (fold_load_entry_spec es 0
              (mkPuzzleModel (rows m) (cols m) (grid m) (used_images m) (unused_images m)
                 (Some dir_path))) as (added & -> & Hnd).
  exists added. simpl. repeat split; auto.
Qed.

(** An entry, once processed, is a no-op on every later pool. *)
Lemma load_entry_settles n m e :
  let m' := snd (load_entry (n, m) e) in
  forall k l,
    load_entry (k, with_pools m' (used_images m') (unused_images m' ++ l)) e =
    (k, with_pools m' (used_images m') (unused_images m' ++ l)).
Proof.
  intros m' k l. subst m'. unfold load_entry.
  remember (unused_images m) as u eqn:Hu.
  destruct (existsb _ SUPPORTED_IMAGE_FORMATS); [| reflexivity].
  destruct (entry_size e) as [[w h] |]; [| reflexivity].
  destruct (w >? h); [| destruct (h >? w)]; cbv iota beta; try reflexivity;
    match goal with |- context [negb (img_in ?i u)] =>
      destruct (img_in i u) eqn:E end; subst u; simpl;
    rewrite ?img_in_app, ?E; simpl; try reflexivity;
    rewrite image_eqb_int_refl; reflexivity.
Qed.

Lemma load_entry_noop_fold es k m :
  (forall e, In e es -> load_entry (k, m) e = (k, m)) ->
  fold_left load_entry es (k, m) = (k, m).
Proof.
  induction es as [| e es IH]; intros H; cbn [fold_left]; [reflexivity |].
  rewrite (H e (or_introl eq_refl)). apply IH. intros e' He'. apply H. right. exact He'.
Qed.

Lemma fold_load_entry_settled es :
  forall n m,
  let m' := snd (fold_left load_entry es (n, m)) in
  (exists l, m' = with_pools m (used_images m) (unused_images m ++ l)) /\
  forall e, In e es -> forall k l,
    load_entry (k, with_pools m' (used_images m') (unused_images m' ++ l)) e =
    (k, with_pools m' (used_images m') (unused_images m' ++ l)).
Proof.
  induction es as [| e es IH]; intros n m m'; subst m'; cbn [fold_left].
  - split; [exists []; rewrite app_nil_r; destruct m; reflexivity | intros e []].
  - destruct (load_entry (n, m) e) as [n1 m1] eqn:E1.
    destruct (IH n1 m1) as [(l1 & Hl1) Hset]. cbv zeta in Hl1, Hset.
    assert (Hext : exists l0, m1 = with_pools m (used_images m) (unused_images m ++ l0)).
    { destruct (load_entry_cases n m e) as [Hc | (img & _ & Hc)]; rewrite Hc in E1;
        injection E1 as _ <-.
      - exists []. rewrite app_nil_r. destruct m; reflexivity.
      - exists [img]. reflexivity. }
    destruct Hext as (l0 & Hl0).
    split.
    + exists (l0 ++ l1). rewrite Hl1, Hl0. simpl. rewrite app_assoc. reflexivity.
    + intros e' [<- | He'] k l.
      * pose proof (load_entry_settles n m e) as Hs. rewrite E1 in Hs. simpl in Hs.
        rewrite Hl1. simpl. rewrite <- app_assoc.
        specialize (Hs k (l1 ++ l)).
        replace (with_pools (with_pools m1 (used_images m1) (unused_images m1 ++ l1))
                   (used_images m1) (unused_images m1 ++ l1 ++ l))
          with (with_pools m1 (used_images m1) (unused_images m1 ++ l1 ++ l)) by reflexivity.
        exact Hs.
      * exact (Hset e' He' k l).
Qed.

(** X7: loading the same directory listing a second time adds no image and returns 0. *)
Theorem load_images_reload (m : PuzzleModel) (dir_path : string) (entries : list DirEntry) :
  let '(_, m1) := load_images_from_directory m dir_path (Some entries) in
  load_images_from_directory m1 dir_path (Some entries) = (0, m1).
Proof.
  unfold load_images_from_directory.
  set (m0 := mkPuzzleModel (rows m) (cols m) (grid m) (used_images m) (unused_images m)
               (Some dir_path)).
  destruct (fold_load_entry_settled entries 0 m0) as [(l & Hl) Hset].
  destruct (fold_left load_entry entries (0, m0)) as [n1 m1] eqn:Ef. simpl in Hl, Hset.
  assert (Hm1 : mkPuzzleModel (rows m1) (cols m1) (grid m1) (used_images m1)
                  (unused_images m1) (Some dir_path) =
                with_pools m1 (used_images m1) (unused_images m1 ++ [])).
  { rewrite Hl. simpl. rewrite app_nil_r. reflexivity. }
  assert (Hm1' : m1 = with_pools m1 (used_images m1) (unused_images m1 ++ [])).
  { rewrite app_nil_r. destruct m1; reflexivity. }
  rewrite Hm1. rewrite load_entry_noop_fold; [rewrite <- Hm1'; reflexivity |].
  intros e He. exact (Hset e He 0 []).
Qed.

Lemma string_app_nil_r (s : string) : (s ++ "")%string = s.
Proof. induction s as [| a s IH]; simpl; [reflexivity | rewrite IH; reflexivity]. Qed.

Lemma split_slash_cons s : exists x xs, split_slash s = x :: xs.
Proof.
  induction s as [| a s (x & xs & IH)]; simpl; [eauto |].
  rewrite IH. destruct (is_slash a); eauto.
Qed.

Lemma split_slash_app x s :
  no_slash x = true ->
  split_slash (x ++ s) =
  match split_slash s with y :: ys => (x ++ y)%string :: ys | [] => [] end.
Proof.
  induction x as [| a x IH]; intros Hx; simpl.
  - destruct (split_slash s); reflexivity.
  - simpl in Hx. apply andb_prop in Hx as [Ha Hx].
    rewrite (IH Hx). destruct (split_slash_cons s) as (y & ys & ->).
    apply negb_true_iff in Ha. rewrite Ha. reflexivity.
Qed.

Lemma split_slash_slash s :
  split_slash (String "/" s) = EmptyString :: split_slash s.
Proof.
  simpl. destruct (split_slash_cons s) as (y & ys & ->). reflexivity.
Qed.

Lemma split_join l :
  l <> [] -> Forall (fun x => no_slash x = true) l -> split_slash (join_slash l) = l.
Proof.
  induction l as [| x l IH]; intros Hne Hall; [congruence |].
  inversion Hall as [| ? ? Hx Hl]; subst.
  destruct l as [| y l].
  - simpl. rewrite <- (string_app_nil_r x) at 1.
    rewrite (split_slash_app x EmptyString Hx). simpl. rewrite string_app_nil_r. reflexivity.
  - change (join_slash (x :: y :: l)) with (x ++ String "/" (join_slash (y :: l)))%string.
    rewrite (split_slash_app x _ Hx), split_slash_slash.
    rewrite (IH ltac:(discriminate) Hl), string_app_nil_r. reflexivity.
Qed.

Lemma no_slash_split s : Forall (fun x => no_slash x = true) (split_slash s).
Proof.
  induction s as [| a s IH]; simpl; [repeat constructor |].
  destruct (split_slash_cons s) as (x & xs & E). rewrite E in *.
  inversion IH as [| ? ? Hx Hxs]; subst.
  destruct (is_slash a) eqn:Ha.
  - constructor; [reflexivity | constructor; assumption].
  - constructor; [simpl; rewrite Ha, Hx; reflexivity | exact Hxs].
Qed.

Lemma join_slash_head l :
  l <> [] -> Forall good_part l ->
  exists a rest, join_slash l = String a rest /\ is_slash a = false.
Proof.
  intros Hne Hall. destruct l as [| x l]; [congruence |].
  inversion Hall as [| ? ? (Hg & Hn) _]; subst.
  destruct x as [| a x]; [discriminate |].
  simpl in Hn. apply andb_prop in Hn as [Ha _]. apply negb_true_iff in Ha.
  destruct l; simpl; eauto.
Qed.

Lemma filter_split_join l :
  Forall good_part l -> filter path_good_part (split_slash (join_slash l)) = l.
Proof.
  intros Hall. destruct l as [| x l]; [reflexivity |].
  rewrite split_join; [| discriminate | ].
  - apply forallb_filter_id, forallb_forall. intros y Hy.
    rewrite Forall_forall in Hall. apply (Hall y Hy).
  - eapply Forall_impl; [| exact Hall]. intros y [_ Hy]. exact Hy.
Qed.

Lemma path_str_nonempty root l :
  l <> [] -> path_str (mkPurePath root l) = (root ++ join_slash l)%string.
Proof.
  intros Hne. destruct l as [| x l]; [congruence |].
  unfold path_str; simpl. destruct root; reflexivity.
Qed.

Lemma parse_path_str p : wf_path p -> parse_path (path_str p) = p.
Proof.
  destruct p as [root l]. intros [Hroot Hall]; simpl in *.
  destruct l as [| x l'].
  { destruct Hroot as [-> | [-> | ->]]; reflexivity. }
  remember (x :: l') as l eqn:El.
  assert (Hne : l <> []) by (rewrite El; discriminate). clear El x l'.
  rewrite (path_str_nonempty root l Hne).
  destruct (join_slash_head l Hne Hall) as (a & rest & Hj & Ha).
  assert (Hf := filter_split_join l Hall).
  unfold parse_path.
  destruct Hroot as [-> | [-> | ->]]; cbn [String.append];
    [| rewrite split_slash_slash | rewrite !split_slash_slash]; simpl filter;
    rewrite Hf; f_equal; rewrite Hj; simpl;
    first [rewrite Ha | unfold is_slash in Ha; rewrite Ha]; reflexivity.
Qed.

Lemma parse_path_wf s : wf_path (parse_path s).
Proof.
  split.
  - unfold parse_path, path_root; simpl.
    destruct s as [| a s1]; [auto |].
    destruct (is_slash a); [| auto].
    destruct s1 as [| b s2]; [auto |].
    destruct (is_slash b); [| auto].
    destruct s2 as [| c s3]; [auto |].
    destruct (is_slash c); auto.
  - unfold parse_path; simpl.
    apply Forall_forall. intros x Hx. apply filter_In in Hx as [Hin Hg].
    split; [exact Hg |]. pose proof (no_slash_split s) as Hn.
    rewrite Forall_forall in Hn. apply Hn, Hin.
Qed.

Lemma parse_py_path s : parse_path (py_path s) = parse_path s.
Proof. apply parse_path_str, parse_path_wf. Qed.

Lemma py_path_idem s : py_path (py_path s) = py_path s.
Proof. unfold py_path at 1. rewrite parse_py_path. reflexivity. Qed.

Lemma is_absolute_root s : is_absolute s = negb (String.eqb (path_root s) "").
Proof.
  destruct s as [| a s1]; [reflexivity |]. unfold path_root, is_absolute.
  change (Ascii.eqb a "/") with (is_slash a).
  destruct (is_slash a); [| reflexivity].
  destruct s1 as [| b s2]; [reflexivity |]. destruct (is_slash b); [| reflexivity].
  destruct s2 as [| c s3]; [reflexivity |]. destruct (is_slash c); reflexivity.
Qed.

Lemma strip_parts_spec pre l rest : strip_parts pre l = Some rest <-> l = pre ++ rest.
Proof.
  revert l; induction pre as [| x pre IH]; intros l; simpl.
  - split; congruence.
  - destruct l as [| y l]; [split; [discriminate | intros H; discriminate] |].
    destruct (String.eqb_spec x y) as [-> | Hne].
    + rewrite IH. split; [intros -> | intros H; injection H]; auto.
    + split; [discriminate | intros H; injection H as H1 _; congruence].
Qed.

Lemma relative_to_some p d r :
  relative_to p d = Some r ->
  exists rest, r = path_str (mkPurePath "" rest) /\
    pp_root (parse_path p) = pp_root (parse_path d) /\
    pp_parts (parse_path p) = pp_parts (parse_path d) ++ rest.
Proof.
  unfold relative_to.
  destruct (String.eqb_spec (pp_root (parse_path p)) (pp_root (parse_path d))) as [Hr | _];
    [| discriminate].
  destruct (strip_parts _ _) as [rest |] eqn:Hs; [| discriminate].
  simpl. intros H; injection H as <-. apply strip_parts_spec in Hs. eauto.
Qed.

Lemma relative_part_parse p d rest :
  pp_parts (parse_path p) = pp_parts (parse_path d) ++ rest ->
  parse_path (path_str (mkPurePath "" rest)) = mkPurePath "" rest.
Proof.
  intros H. apply parse_path_str. split; [left; reflexivity |]. simpl.
  destruct (parse_path_wf p) as [_ Hall]. rewrite H in Hall.
  apply Forall_app in Hall as [_ Hall]. exact Hall.
Qed.

Lemma relative_to_join p d r :
  relative_to p d = Some r ->
  is_absolute r = false /\ py_path r = r /\ path_join d r = py_path p.
Proof.
  intros Hrel. destruct (relative_to_some p d r Hrel) as (rest & -> & Hroot & Hparts).
  pose proof (relative_part_parse p d rest Hparts) as Hp.
  split; [| split].
  - rewrite is_absolute_root.
    replace (path_root (path_str (mkPurePath "" rest)))
      with (pp_root (parse_path (path_str (mkPurePath "" rest)))) by reflexivity.
    rewrite Hp. reflexivity.
  - unfold py_path. rewrite Hp. reflexivity.
  - unfold path_join. rewrite Hp. cbn [pp_root pp_parts]. rewrite String.eqb_refl.
    unfold py_path. rewrite <- Hroot, <- Hparts. destruct (parse_path p); reflexivity.
Qed.

Lemma path_join_relative_outside p d :
  is_absolute p = false -> relative_to p d = None -> path_join d p <> py_path p.
Proof.
  intros Habs Hnone Heq.
  rewrite is_absolute_root in Habs. apply negb_false_iff, String.eqb_eq in Habs.
  unfold path_join in Heq. cbv zeta in Heq.
  change (pp_root (parse_path p)) with (path_root p) in Heq.
  rewrite Habs, String.eqb_refl in Heq.
  apply (f_equal parse_path) in Heq.
  rewrite parse_py_path in Heq.
  rewrite parse_path_str in Heq.
  - unfold relative_to in Hnone.
    destruct (parse_path p) as [rp lp] eqn:Ep; simpl in *.
    injection Heq as Hroot Hparts.
    assert (Hd : filter path_good_part (split_slash d) = []).
    { apply (f_equal (@List.length string)) in Hparts. rewrite length_app in Hparts.
      destruct (filter path_good_part (split_slash d)); [reflexivity | simpl in Hparts; lia]. }
    rewrite Hd, <- Hroot, String.eqb_refl in Hnone. discriminate.
  - destruct (parse_path_wf d) as [Hr Hd]. destruct (parse_path_wf p) as [_ Hp].
    split; [exact Hr |]. simpl. apply Forall_app. split; assumption.
Qed.

Lemma deserialize_serialize_path (img : ImageInfo) (s : string) (dir : option string) :
  deserialize_image
    (JObj [("path", JStr s); ("orientation", JStr (orientation_value (orientation img)));
           ("width", width img); ("height", height img)]%string) dir =
  Some (mkImageInfo
          (if negb (is_absolute (py_path s))
           then match dir with Some d => path_join d (py_path s) | None => py_path s end
           else py_path s)
          (orientation img) (width img) (height img)).
Proof.
  unfold deserialize_image. cbv zeta. simpl find. cbn iota beta.
  destruct (orientation img); reflexivity.
Qed.

Lemma is_absolute_py_path s : is_absolute (py_path s) = is_absolute s.
Proof.
  rewrite !is_absolute_root.
  change (path_root (py_path s)) with (pp_root (parse_path (py_path s))).
  rewrite parse_py_path. reflexivity.
Qed.

(** X8: with no image directory, [_deserialize_image] inverts [_serialize_image] for an image whose path string is [str] of a [Path]. *)
Theorem serialize_round_trip_no_directory (img : ImageInfo)
  (Hn : py_path (path img) = path img) :
  deserialize_image (serialize_image img None) None = Some img.
Proof.
  unfold serialize_image. rewrite deserialize_serialize_path, Hn.
  destruct img as [p o w h]; simpl. destruct (negb (is_absolute p)); reflexivity.
Qed.

Lemma serialize_round_trip_no_directory_witness :
  py_path (path sample_portrait) = path sample_portrait /\
  deserialize_image (serialize_image sample_portrait None) None = Some sample_portrait.
Proof.
  assert (Hn : py_path (path sample_portrait) = path sample_portrait) by reflexivity.
  split; [exact Hn |]. exact (serialize_round_trip_no_directory sample_portrait Hn).
Defined.

(** X9: with an image directory [d], [_deserialize_image] inverts [_serialize_image] for an image whose path string is [str] of a [Path] and which is absolute or lies under [d] ([relative_to] succeeds). *)
Theorem serialize_round_trip_directory (img : ImageInfo) (d : string)
  (Hn : py_path (path img) = path img)
  (Hpath : is_absolute (path img) = true \/ relative_to (path img) d <> None) :
  deserialize_image (serialize_image img (Some d)) (Some d) = Some img.
Proof.
  unfold serialize_image. destruct (relative_to (path img) d) as [r |] eqn:Hr.
  - destruct (relative_to_join _ _ _ Hr) as (Habs & Hpr & Hj).
    rewrite deserialize_serialize_path, Hpr, Habs, Hj, Hn.
    destruct img; reflexivity.
  - destruct Hpath as [Habs | C]; [| congruence].
    rewrite deserialize_serialize_path, Hn, Habs. destruct img; reflexivity.
Qed.

Lemma serialize_round_trip_directory_witness :
  py_path (path sample_portrait) = path sample_portrait /\
  (is_absolute (path sample_portrait) = true \/
   relative_to (path sample_portrait) "/photos"%string <> None) /\
  deserialize_image (serialize_image sample_portrait (Some "/photos"%string))
    (Some "/photos"%string) = Some sample_portrait.
Proof.
  assert (H1 : py_path (path sample_portrait) = path sample_portrait) by reflexivity.
  assert (H2 : is_absolute (path sample_portrait) = true \/
     relative_to (path sample_portrait) "/photos"%string <> None)
    by (right; vm_compute; discriminate).
  split; [exact H1 |]. split; [exact H2 |].
  exact (serialize_round_trip_directory sample_portrait "/photos" H1 H2).
Defined.

(** X10: with an image directory [d], a relative path that is not under [d] is serialized unchanged and read back as [d / path], a different path. *)
Theorem serialize_relative_outside_rerooted (img : ImageInfo) (d : string)
  (Hn : py_path (path img) = path img)
  (Hrel : is_absolute (path img) = false) (Hout : relative_to (path img) d = None) :
  deserialize_image (serialize_image img (Some d)) (Some d) =
  Some (mkImageInfo (path_join d (path img)) (orientation img) (width img) (height img)) /\
  path_join d (path img) <> path img.
Proof.
  split.
  - unfold serialize_image. rewrite Hout, deserialize_serialize_path, Hn, Hrel. reflexivity.
  - rewrite <- Hn at 2. apply path_join_relative_outside; assumption.
Qed.

Lemma serialize_relative_outside_rerooted_witness :
  let img := mkImageInfo "a.jpg" HORIZONTAL (JInt 1920) (JInt 1080) in
  py_path (path img) = path img /\ is_absolute (path img) = false /\
  relative_to (path img) "/"%string = None /\
  deserialize_image (serialize_image img (Some "/"%string)) (Some "/"%string) =
  Some (mkImageInfo "/a.jpg" (orientation img) (width img) (height img)).
Proof.
  intros img.
  assert (H0 : py_path (path img) = path img) by reflexivity.
  assert (H1 : is_absolute (path img) = false) by reflexivity.
  assert (H2 : relative_to (path img) "/"%string = None) by reflexivity.
  split; [exact H0 |]. split; [exact H1 |]. split; [exact H2 |].
  exact (proj1 (serialize_relative_outside_rerooted img "/" H0 H1 H2)).
Defined.

Lemma get_cell_in_bounds m r c cell :
  get_cell m r c = Some cell -> 0 <= r < rows m /\ 0 <= c < cols m.
Proof.
  unfold get_cell. destruct (in_bounds m r c) eqn:E; [| discriminate].
  intros _. apply in_bounds_iff, E.
Qed.

Lemma qpixmap_scaled_fits src tw th sw sh :
  qpixmap_scaled src tw th = Some (sw, sh) -> 1 <= sw <= tw /\ 1 <= sh <= th.
Proof.
  destruct src as [[w h] |]; [| discriminate]. unfold qpixmap_scaled.
  destruct (Z.leb_spec tw 0); [discriminate |]. destruct (Z.leb_spec th 0); [discriminate |].
  cbn [orb]. unfold qsize_scaled_keep. cbn [Z.eqb orb].
  rewrite !Z.quot_div_nonneg by lia.
  pose proof (Z.mul_div_le (th * Z.pos w) (Z.pos h) ltac:(lia)) as H1.
  pose proof (Z.mul_div_le (tw * Z.pos h) (Z.pos w) ltac:(lia)) as H2.
  pose proof (Z.div_pos (th * Z.pos w) (Z.pos h) ltac:(lia) ltac:(lia)) as H3.
  pose proof (Z.div_pos (tw * Z.pos h) (Z.pos w) ltac:(lia) ltac:(lia)) as H4.
  destruct (Z.leb_spec (th * Z.pos w / Z.pos h) tw); intros E; injection E as <- <-.
  - lia.
  - split; [lia |]. split; [lia |].
    assert (tw * Z.pos h / Z.pos w <= th); [| lia].
    destruct (Z.le_gt_cases (tw * Z.pos h / Z.pos w) th) as [| Hgt]; [assumption |].
    exfalso. nia.
Qed.

Lemma tiles_ops cv t : In t (tiles cv) <-> In (DrawPixmap t) (ops cv).
Proof.
  unfold tiles. rewrite in_flat_map. split.
  - intros (op & Hin & Ht). destruct op; try destruct Ht as [<- | []]; try destruct Ht.
    exact Hin.
  - intros Hin. exists (DrawPixmap t). split; [exact Hin | left; reflexivity].
Qed.

Lemma create_puzzle_image_pixmaps ps m cw ch dg cs si cv a b d e t :
  create_puzzle_image ps m cw ch dg cs si = Some cv ->
  get_valid_area m = Some (a, b, d, e) ->
  let sp := Z.max (match cs with Some s => s | None => exporter_calculate_spacing ch end) 0 in
  In t (tiles cv) <->
  ((canvas_width cv <=? 0) || (canvas_height cv <=? 0)) = false /\
  exists r c cell img sw sh,
    In (r, c) (region_cells (mkQRect d a (e - d + 1) (b - a + 1))) /\
    get_cell m r c = Some cell /\ is_occupied cell = true /\ image cell = Some img /\
    is_main_cell cell = true /\ ps (path img) <> None /\
    let th := match orientation img with
              | VERTICAL => ch * VERTICAL_IMAGE_SPAN + sp * (VERTICAL_IMAGE_SPAN - 1)
              | HORIZONTAL => ch
              end in
    qpixmap_scaled (ps (path img)) cw th = Some (sw, sh) /\
    t = mkTile ((c - d) * (cw + sp) + (cw - sw) / 2) ((r - a) * (ch + sp) + (th - sh) / 2)
          sw sh img.
Proof.
  intros Hcv Hva sp. unfold create_puzzle_image in Hcv. rewrite Hva in Hcv.
  cbv zeta in Hcv. fold sp in Hcv. injection Hcv as <-.
  rewrite tiles_ops. cbn [ops canvas_width canvas_height].
  destruct (_ || _) eqn:Hnull.
  { split; [intros [] | intros [C _]; discriminate]. }
  rewrite !in_app_iff, in_flat_map. split.
  - intros [Hg | [([r c] & Hrc & Ht) | Hi]].
    + exfalso. destruct dg; [| destruct Hg].
      apply in_app_iff in Hg as [Hg | Hg]; apply in_map_iff in Hg as (? & ? & _); discriminate.
    + split; [reflexivity |].
      destruct (get_cell m r c) as [cell |] eqn:Hg; [| destruct Ht].
      destruct (is_occupied cell) eqn:Ho; [| destruct Ht].
      destruct (image cell) as [img |] eqn:Hi; [| destruct Ht].
      destruct (is_main_cell cell) eqn:Hm; [| destruct Ht].
      apply in_app_iff in Ht as [Ht | Ht].
      { destruct dg; [destruct Ht as [E | []]; discriminate | destruct Ht]. }
      destruct (ps (path img)) as [[w h] |] eqn:Hp; [| destruct Ht].
      match type of Ht with
      | In _ (match ?q with Some _ => _ | None => _ end) => destruct q as [[sw sh] |] eqn:Hs
      end; [| destruct Ht].
      destruct Ht as [E | []]. injection E as <-.
      exists r, c, cell, img, sw, sh.
      refine (conj Hrc (conj Hg (conj Ho (conj Hi (conj Hm (conj _ _))))));
        [rewrite Hp; discriminate |].
      cbv zeta. split; [rewrite Hp; exact Hs | reflexivity].
    + exfalso. destruct si; [| destruct Hi].
      apply in_app_iff in Hi as [Hi | Hi]; apply in_map_iff in Hi as (? & ? & _); discriminate.
  - intros (_ & r & c & cell & img & sw & sh & Hrc & Hg & Ho & Hi & Hm & Hp & Hs & ->).
    right; left. exists (r, c). split; [exact Hrc |].
    cbn beta iota. rewrite Hg, Ho, Hi, Hm. apply in_app_iff. right.
    destruct (ps (path img)) as [[w h] |] eqn:Hp'; [| congruence].
    cbv zeta in Hs.
    match goal with
    | |- context [qpixmap_scaled ?src ?tw ?th] =>
        replace (qpixmap_scaled src tw th) with (Some (sw, sh)) by (rewrite <- Hs; reflexivity)
    end.
    left. reflexivity.
Qed.

(** X11: for non-negative cell sizes, every pixmap drawn by [create_puzzle_image] lies inside the output image. *)
Theorem create_puzzle_image_tiles_inside (pixmap_size : string -> option (positive * positive))
  (m : PuzzleModel) (cw ch : Z) (draw_grid : bool) (cs : option Z) (show_indices : bool)
  (cv : Canvas) (Hcw : 0 <= cw) (Hch : 0 <= ch)
  (Hcv : create_puzzle_image pixmap_size m cw ch draw_grid cs show_indices = Some cv) :
  forall t, In t (tiles cv) ->
    0 <= tile_x t /\ tile_x t + tile_width t <= canvas_width cv /\
    0 <= tile_y t /\ tile_y t + tile_height t <= canvas_height cv.
Proof.
  intros t Ht.
  pose proof (get_valid_area_inv m) as Hinv.
  destruct (get_valid_area m) as [[[[a b] d] e] |] eqn:Hva;
    [| unfold create_puzzle_image in Hcv; rewrite Hva in Hcv; discriminate].
  destruct (bounding_box_ordered _ _ _ _ _ _ Hinv) as [Hab Hde].
  destruct Hinv as (Hall & _).
  destruct (create_puzzle_image_size pixmap_size m cw ch draw_grid cs show_indices a b d e
              Hva Hab Hde) as (cv' & Hcv' & Hw & Hh).
  rewrite Hcv in Hcv'. injection Hcv' as <-.
  destruct (proj1 (create_puzzle_image_pixmaps _ _ _ _ _ _ _ _ _ _ _ _ t Hcv Hva) Ht)
    as (_ & r & c & cell & img & sw & sh & Hrc & Hg & Ho & Hi & Hm & _ & Hs & ->).
  set (sp := Z.max (match cs with Some s => s | None => exporter_calculate_spacing ch end) 0)
    in *.
  assert (Hsp : 0 <= sp) by (unfold sp; lia).
  apply in_region_cells in Hrc. cbn [qtop qleft qheight qwidth] in Hrc.
  pose proof (get_cell_in_bounds _ _ _ _ Hg) as Hb.
  assert (Hx : main_extent m (r, c) =
               Some (match orientation img with VERTICAL => r + 2 | HORIZONTAL => r end)).
  { unfold main_extent. rewrite Hg, Ho, Hm, Hi. simpl.
    destruct (orientation img); unfold VERTICAL_IMAGE_SPAN; f_equal; lia. }
  assert (Hin : In (r, c) (region_cells (mkQRect 0 0 (cols m) (rows m))))
    by (apply in_region_cells; simpl; lia).
  specialize (Hall _ _ _ Hin Hx).
  apply qpixmap_scaled_fits in Hs.
  cbn [tile_x tile_y tile_width tile_height].
  set (th := match orientation img with
             | VERTICAL => ch * VERTICAL_IMAGE_SPAN + sp * (VERTICAL_IMAGE_SPAN - 1)
             | HORIZONTAL => ch
             end) in *.
  assert (Hdx : 0 <= (cw - sw) / 2 <= cw - sw)
    by (split; [apply Z.div_pos | apply Z.div_le_upper_bound]; lia).
  assert (Hdy : 0 <= (th - sh) / 2 <= th - sh)
    by (split; [apply Z.div_pos | apply Z.div_le_upper_bound]; lia).
  assert (Hth : (r - a) * (ch + sp) + th <= (b - a + 1) * ch + (b - a) * sp).
  { unfold th, VERTICAL_IMAGE_SPAN in *. destruct (orientation img); nia. }
  rewrite Hw, Hh. repeat split; nia.
Qed.

Lemma create_puzzle_image_tiles_inside_witness :
  let ps := fun _ : string => Some (1080%positive, 1920%positive) in
  let m1 := snd (place_image (PuzzleModel_init 13 10) 0 0 sample_portrait) in
  let cv := match create_puzzle_image ps m1 160 90 false None false with
            | Some cv => cv | None => mkCanvas 0 0 [] end in
  0 <= 160 /\ 0 <= 90 /\ create_puzzle_image ps m1 160 90 false None false = Some cv /\
  tiles cv = [mkTile 0 0 159 284 sample_portrait] /\
  (forall t, In t (tiles cv) ->
    0 <= tile_x t /\ tile_x t + tile_width t <= canvas_width cv /\
    0 <= tile_y t /\ tile_y t + tile_height t <= canvas_height cv).
Proof.
  intros ps m1 cv.
  assert (Hcv : create_puzzle_image ps m1 160 90 false None false = Some cv)
    by (vm_compute; reflexivity).
  split; [lia |]. split; [lia |]. split; [exact Hcv |]. split; [vm_compute; reflexivity |].
  apply (create_puzzle_image_tiles_inside ps m1 160 90 false None false cv);
    [lia | lia | exact Hcv].
Defined.

(** X12: [create_puzzle_image] draws a pixmap exactly for the main cells holding an image whose file [QPixmap] can read: for positive cell sizes each such image is drawn scaled to fit its target box (one cell, or for a Portrait three cells and two gaps high) keeping its aspect ratio, centred in that box; and no pixmap is drawn for an image whose file gives a null pixmap. *)
Theorem create_puzzle_image_tiles_complete (pixmap_size : string -> option (positive * positive))
  (m : PuzzleModel) (cw ch : Z) (draw_grid : bool) (cs : option Z) (show_indices : bool)
  (cv : Canvas) (Hcw : 0 < cw) (Hch : 0 < ch)
  (Hcv : create_puzzle_image pixmap_size m cw ch draw_grid cs show_indices = Some cv) :
  let sp := Z.max (match cs with Some s => s | None => exporter_calculate_spacing ch end) 0 in
  exists min_row max_row min_col max_col,
    get_valid_area m = Some (min_row, max_row, min_col, max_col) /\
    (forall r c cell img w h,
      get_cell m r c = Some cell -> is_occupied cell = true -> is_main_cell cell = true ->
      image cell = Some img -> pixmap_size (path img) = Some (w, h) ->
      let th := match orientation img with
                | VERTICAL => 3 * ch + 2 * sp
                | HORIZONTAL => ch
                end in
      exists sw sh, qpixmap_scaled (Some (w, h)) cw th = Some (sw, sh) /\
        In (mkTile ((c - min_col) * (cw + sp) + (cw - sw) / 2)
                   ((r - min_row) * (ch + sp) + (th - sh) / 2) sw sh img) (tiles cv)) /\
    (forall t, In t (tiles cv) -> pixmap_size (path (tile_image t)) <> None).
Proof.
  intros sp.
  pose proof (get_valid_area_inv m) as Hinv.
  destruct (get_valid_area m) as [[[[a b] d] e] |] eqn:Hva;
    [| unfold create_puzzle_image in Hcv; rewrite Hva in Hcv; discriminate].
  destruct (bounding_box_ordered _ _ _ _ _ _ Hinv) as [Hab Hde].
  destruct Hinv as (Hall & _).
  exists a, b, d, e. split; [reflexivity |]. split.
  - intros r c cell img w h Hg Ho Hm Hi Hp th.
    assert (Hsp : 0 <= sp) by (unfold sp; lia).
    assert (Hth : 0 < th) by (unfold th; destruct (orientation img); lia).
    destruct (qpixmap_scaled (Some (w, h)) cw th) as [[sw sh] |] eqn:Hs.
    2: { exfalso. revert Hs. unfold qpixmap_scaled.
         destruct (Z.leb_spec cw 0); [lia |]. destruct (Z.leb_spec th 0); [lia |].
         cbn [orb]. destruct (qsize_scaled_keep _ _ _ _). discriminate. }
    exists sw, sh. split; [reflexivity |].
    pose proof (get_cell_in_bounds _ _ _ _ Hg) as Hb.
    assert (Hx : main_extent m (r, c) =
                 Some (match orientation img with VERTICAL => r + 2 | HORIZONTAL => r end)).
    { unfold main_extent. rewrite Hg, Ho, Hm, Hi. simpl.
      destruct (orientation img); unfold VERTICAL_IMAGE_SPAN; f_equal; lia. }
    assert (Hin : In (r, c) (region_cells (mkQRect 0 0 (cols m) (rows m))))
      by (apply in_region_cells; simpl; lia).
    specialize (Hall _ _ _ Hin Hx).
    assert (Hbox : In (r, c) (region_cells (mkQRect d a (e - d + 1) (b - a + 1)))).
    { apply in_region_cells. simpl. destruct (orientation img); lia. }
    destruct (create_puzzle_image_size pixmap_size m cw ch draw_grid cs show_indices a b d e
                Hva Hab Hde) as (cv' & Hcv' & Hw & Hh).
    rewrite Hcv in Hcv'. injection Hcv' as <-.
    apply (create_puzzle_image_pixmaps _ _ _ _ _ _ _ _ _ _ _ _ _ Hcv Hva).
    split.
    + fold sp in Hw, Hh. rewrite Hw, Hh.
      destruct (Z.leb_spec ((e - d + 1) * cw + (e - d) * sp) 0); [nia |].
      destruct (Z.leb_spec ((b - a + 1) * ch + (b - a) * sp) 0); [nia | reflexivity].
    + exists r, c, cell, img, sw, sh.
      refine (conj Hbox (conj Hg (conj Ho (conj Hi (conj Hm (conj _ _))))));
        [rewrite Hp; discriminate |].
      assert (Eth : match orientation img with
                    | VERTICAL => ch * VERTICAL_IMAGE_SPAN + sp * (VERTICAL_IMAGE_SPAN - 1)
                    | HORIZONTAL => ch
                    end = th)
        by (unfold th, VERTICAL_IMAGE_SPAN; destruct (orientation img); ring).
      cbv zeta. fold sp. rewrite Eth, Hp. split; [exact Hs | reflexivity].
  - intros t Ht.
    destruct (proj1 (create_puzzle_image_pixmaps _ _ _ _ _ _ _ _ _ _ _ _ t Hcv Hva) Ht)
      as (_ & r & c & cell & img & sw & sh & _ & _ & _ & _ & _ & Hp & _ & ->).
    exact Hp.
Qed.

Lemma create_puzzle_image_tiles_complete_witness :
  let ps := fun p : string =>
              if String.eqb p (path sample_portrait) then Some (1080%positive, 1920%positive)
              else None in
  let m1 := snd (place_image (snd (place_image (PuzzleModel_init 13 10) 0 0 sample_portrait))
                   0 1 sample_landscape) in
  let cv := match create_puzzle_image ps m1 160 90 false None false with
            | Some cv => cv | None => mkCanvas 0 0 [] end in
  0 < 160 /\ 0 < 90 /\ create_puzzle_image ps m1 160 90 false None false = Some cv /\
  tiles cv = [mkTile 0 0 159 284 sample_portrait] /\
  (let sp := Z.max (exporter_calculate_spacing 90) 0 in
  exists min_row max_row min_col max_col,
    get_valid_area m1 = Some (min_row, max_row, min_col, max_col) /\
    (forall r c cell img w h,
      get_cell m1 r c = Some cell -> is_occupied cell = true -> is_main_cell cell = true ->
      image cell = Some img -> ps (path img) = Some (w, h) ->
      let th := match orientation img with
                | VERTICAL => 3 * 90 + 2 * sp
                | HORIZONTAL => 90
                end in
      exists sw sh, qpixmap_scaled (Some (w, h)) 160 th = Some (sw, sh) /\
        In (mkTile ((c - min_col) * (160 + sp) + (160 - sw) / 2)
                   ((r - min_row) * (90 + sp) + (th - sh) / 2) sw sh img) (tiles cv)) /\
    (forall t, In t (tiles cv) -> ps (path (tile_image t)) <> None)).
Proof.
  intros ps m1 cv.
  assert (Hcv : create_puzzle_image ps m1 160 90 false None false = Some cv)
    by (vm_compute; reflexivity).
  split; [lia |]. split; [lia |]. split; [exact Hcv |]. split; [vm_compute; reflexivity |].
  exact (create_puzzle_image_tiles_complete ps m1 160 90 false None false cv
           ltac:(lia) ltac:(lia) Hcv).
Defined.

Lemma cells_consistent_iff m : cells_consistent m = true <-> consistentP m.
Proof.
  unfold cells_consistent, consistentP. rewrite forallb_forall. split.
  - intros H r c Hr Hc Ho.
    assert (Hin : In (r, c) (region_cells (mkQRect 0 0 (cols m) (rows m))))
      by (apply in_region_cells; simpl; lia).
    specialize (H _ Hin). simpl in H. rewrite Ho in H. simpl in H.
    destruct (image (cell_at (grid m) r c)) as [i |]; [exists i; auto | discriminate].
  - intros H [r c] Hin. apply in_region_cells in Hin. simpl in Hin |- *.
    destruct (is_occupied (cell_at (grid m) r c)) eqn:Ho; [| reflexivity].
    destruct (H r c ltac:(lia) ltac:(lia) Ho) as (i & -> & Hi). exact Hi.
Qed.

Lemma remove_image_step m r c :
  grid_shape m -> consistentP m ->
  let m' := snd (remove_image m r c) in
  rows m' = rows m /\ cols m' = cols m /\ grid_shape m' /\ consistentP m' /\
  (forall r' c', 0 <= r' < rows m -> 0 <= c' < cols m ->
     is_occupied (cell_at (grid m) r' c') = false ->
     is_occupied (cell_at (grid m') r' c') = false) /\
  (0 <= r < rows m -> 0 <= c < cols m -> is_occupied (cell_at (grid m') r c) = false).
Proof.
  intros Hs Hc m'. subst m'. unfold remove_image.
  destruct (in_bounds m r c) eqn:Hb; simpl.
  2: { split; [reflexivity |]. split; [reflexivity |]. split; [exact Hs |].
       split; [exact Hc |]. split; [auto |]. intros Hr Hcc. exfalso.
       assert (in_bounds m r c = true) by (apply in_bounds_iff; auto). congruence. }
  destruct (is_occupied (cell_at (grid m) r c)) eqn:Ho.
  2: { destruct (image (cell_at (grid m) r c)); (split; [reflexivity |]); (split; [reflexivity |]);
       (split; [exact Hs |]); (split; [exact Hc |]); split; auto. }
  destruct (Hc r c ltac:(apply in_bounds_iff in Hb; lia) ltac:(apply in_bounds_iff in Hb; lia) Ho)
    as (img & Hi & Hrefl).
  rewrite Hi. simpl.
  apply in_bounds_iff in Hb.
  destruct (clear_image_cells_spec (rows m) (cols m) img (grid m) Hs ltac:(lia)) as [Hs' Hcl].
  split; [reflexivity |]. split; [reflexivity |]. split; [exact Hs' |]. split; [| split].
  - intros r' c' Hr' Hc' Ho'. simpl in *. rewrite Hcl in Ho' |- * by assumption.
    unfold clear_cell in *.
    destruct (opt_img_eqb (image (cell_at (grid m) r' c')) img); [discriminate |].
    exact (Hc r' c' Hr' Hc' Ho').
  - intros r' c' Hr' Hc' Ho'. simpl. rewrite Hcl by assumption. unfold clear_cell.
    destruct (opt_img_eqb _ _); [reflexivity | exact Ho'].
  - intros _ _. simpl. rewrite Hcl by lia. unfold clear_cell. rewrite Hi. simpl.
    rewrite Hrefl. reflexivity.
Qed.

Lemma remove_cells_spec cells :
  forall m, grid_shape m -> consistentP m ->
  let m' := remove_cells m cells in
  rows m' = rows m /\ cols m' = cols m /\ grid_shape m' /\ consistentP m' /\
  (forall r c, 0 <= r < rows m -> 0 <= c < cols m ->
     (is_occupied (cell_at (grid m) r c) = false \/ In (r, c) cells) ->
     is_occupied (cell_at (grid m') r c) = false).
Proof.
  unfold remove_cells.
  induction cells as [| [r c] cells IH]; intros m Hs Hc; cbn [fold_left].
  - split; [reflexivity |]. split; [reflexivity |]. split; [exact Hs |].
    split; [exact Hc |]. intros r c _ _ [H | []]. exact H.
  - cbn [fst snd].
    destruct (remove_image_step m r c Hs Hc) as (Hr1 & Hc1 & Hs1 & Hcons1 & Hkeep & Hnow).
    destruct (IH _ Hs1 Hcons1) as (Hr2 & Hc2 & Hs2 & Hcons2 & Hclr).
    rewrite Hr1, Hc1 in *.
    split; [congruence |]. split; [congruence |]. split; [exact Hs2 |]. split; [exact Hcons2 |].
    intros r' c' Hr' Hc' [Ho | [Heq | Hin]].
    + apply Hclr; auto.
    + injection Heq as <- <-. apply Hclr; auto.
    + apply Hclr; auto.
Qed.

(** X13: when every occupied cell holds a self-equal image, [_clear_grid] leaves no cell occupied and keeps the dimensions; [_clear_images] leaves the same grid and both pools empty. *)
Theorem clear_grid_empties (m : PuzzleModel)
  (Hshape : grid_shape m) (Hcons : cells_consistent m = true) :
  let m' := clear_grid m in
  rows m' = rows m /\ cols m' = cols m /\ grid_shape m' /\
  (forall r c, 0 <= r < rows m -> 0 <= c < cols m ->
     is_occupied (cell_at (grid m') r c) = false) /\
  grid (clear_images m) = grid m' /\
  used_images (clear_images m) = [] /\ unused_images (clear_images m) = [].
Proof.
  intros m'. apply cells_consistent_iff in Hcons.
  destruct (remove_cells_spec (region_cells (mkQRect 0 0 (cols m) (rows m))) m Hshape Hcons)
    as (Hr & Hc & Hs & _ & Hclr).
  split; [exact Hr |]. split; [exact Hc |]. split; [exact Hs |]. split.
  - intros r c Hr' Hc'. apply Hclr; [exact Hr' | exact Hc' |].
    right. apply in_region_cells. simpl. lia.
  - repeat split.
Qed.

Lemma clear_grid_empties_witness :
  let m1 := snd (place_image (snd (place_image (PuzzleModel_init 4 2) 0 0 sample_portrait))
                   1 1 sample_landscape) in
  grid_shape m1 /\ cells_consistent m1 = true /\
  (let m' := clear_grid m1 in
  rows m' = rows m1 /\ cols m' = cols m1 /\ grid_shape m' /\
  (forall r c, 0 <= r < rows m1 -> 0 <= c < cols m1 ->
     is_occupied (cell_at (grid m') r c) = false) /\
  grid (clear_images m1) = grid m' /\
  used_images (clear_images m1) = [] /\ unused_images (clear_images m1) = []).
Proof.
  intros m1.
  assert (Hs : grid_shape m1) by (split; [reflexivity | repeat constructor]).
  assert (Hc : cells_consistent m1 = true) by (vm_compute; reflexivity).
  split; [exact Hs |]. split; [exact Hc |].
  exact (clear_grid_empties m1 Hs Hc).
Defined.

(** X14: [_clear_region] does nothing on an empty selection; otherwise it expands the selection for Portrait images and, if confirmed, leaves every cell of the expanded selection unoccupied, keeping unoccupied cells unoccupied and the dimensions unchanged. *)
Theorem clear_region_empties (m : PuzzleModel) (sel : QRect) (confirmed : bool)
  (Hshape : grid_shape m) (Hcons : cells_consistent m = true) :
  let '(m', q) := clear_region m sel confirmed in
  (qisNull sel = true -> m' = m /\ q = sel) /\
  (qisNull sel = false -> q = snd (auto_expand_for_vertical_images m sel)) /\
  (confirmed = false -> m' = m) /\
  (confirmed = true ->
     rows m' = rows m /\ cols m' = cols m /\ grid_shape m' /\
     forall r c, 0 <= r < rows m -> 0 <= c < cols m ->
       (is_occupied (cell_at (grid m) r c) = false \/ In (r, c) (region_cells q)) ->
       is_occupied (cell_at (grid m') r c) = false).
Proof.
  apply cells_consistent_iff in Hcons.
  unfold clear_region. destruct (qisNull sel) eqn:Hn; [| destruct confirmed];
    lazy beta iota zeta.
  - split; [auto |]. split; [discriminate |]. split; [auto |].
    intros ->. split; [reflexivity |]. split; [reflexivity |]. split; [exact Hshape |].
    intros r c _ _ [Ho | Hin]; [exact Ho |].
    unfold qisNull in Hn. apply andb_true_iff in Hn as [Hw Hh].
    apply Z.eqb_eq in Hw, Hh. apply in_region_cells in Hin. lia.
  - split; [discriminate |]. split; [auto |].
    split; [discriminate |]. intros _.
      destruct (remove_cells_spec (region_cells (snd (auto_expand_for_vertical_images m sel)))
                  m Hshape Hcons) as (Hr & Hc & Hs & _ & Hclr).
      split; [exact Hr |]. split; [exact Hc |]. split; [exact Hs |]. exact Hclr.
  - split; [discriminate |]. split; [auto |]. split; [auto | discriminate].
Qed.

Lemma clear_region_empties_witness :
  let m1 := snd (place_image (snd (place_image (PuzzleModel_init 4 2) 0 0 sample_portrait))
                   1 1 sample_landscape) in
  let sel := mkQRect 0 1 1 1 in
  grid_shape m1 /\ cells_consistent m1 = true /\
  (let '(m', q) := clear_region m1 sel true in
  (qisNull sel = true -> m' = m1 /\ q = sel) /\
  (qisNull sel = false -> q = snd (auto_expand_for_vertical_images m1 sel)) /\
  (true = false -> m' = m1) /\
  (true = true ->
     rows m' = rows m1 /\ cols m' = cols m1 /\ grid_shape m' /\
     forall r c, 0 <= r < rows m1 -> 0 <= c < cols m1 ->
       (is_occupied (cell_at (grid m1) r c) = false \/ In (r, c) (region_cells q)) ->
       is_occupied (cell_at (grid m') r c) = false)).
Proof.
  intros m1 sel.
  assert (Hs : grid_shape m1) by (split; [reflexivity | repeat constructor]).
  assert (Hc : cells_consistent m1 = true) by (vm_compute; reflexivity).
  split; [exact Hs |]. split; [exact Hc |].
  exact (clear_region_empties m1 sel true Hs Hc).
Defined.

Lemma pbind_success {A B : Type} (c : PyM A) (f : A -> PyM B) m m' b :
  pbind c f m = (m', inr b) -> exists m1 a, c m = (m1, inr a) /\ f a m1 = (m', inr b).
Proof. unfold pbind. destruct (c m) as [m1 [e | a]]; [discriminate | eauto]. Qed.

Lemma plift_success {A : Type} (o : option A) e m m' a :
  plift o e m = (m', inr a) -> m' = m /\ o = Some a.
Proof.
  destruct o; unfold plift, pret, praise; intros H; injection H; [| discriminate].
  intros <- <-. auto.
Qed.

Lemma pfor_success {A : Type} (P : PyState -> Prop) (l : list A) (body : A -> PyM unit) :
  (forall x m m' u, In x l -> body x m = (m', inr u) -> P m -> P m') ->
  forall m m' u, pfor l body m = (m', inr u) -> P m -> P m'.
Proof.
  intros Hbody. unfold pfor.
  assert (Hgen : forall l' (c : PyM unit), incl l' l ->
    (forall m m' u, c m = (m', inr u) -> P m -> P m') ->
    forall m m' u, fold_left (fun c x => c ;; body x) l' c m = (m', inr u) -> P m -> P m').
  { induction l' as [| x l' IH]; intros c Hincl Hc; cbn [fold_left]; [exact Hc |].
    apply IH; [intros y Hy; apply Hincl; right; exact Hy |].
    intros m m' u H HP. apply pbind_success in H as (m1 & a & H1 & H2).
    apply (Hbody x m1 m' u); [apply Hincl; left; reflexivity | exact H2 |].
    exact (Hc _ _ _ H1 HP). }
  apply (Hgen l (pret tt)); [intros y Hy; exact Hy |].
  intros m m' u H HP. injection H as <- _. exact HP.
Qed.

Lemma Forall_list_remove (P : ImageInfo -> Prop) x l :
  Forall P l -> Forall P (list_remove x l).
Proof.
  induction 1 as [| y l Hy Hl IH]; simpl; [constructor |].
  destruct (image_eqb x y); [exact Hl | constructor; assumption].
Qed.

Lemma Forall_set_cell (Q : GridCell -> Prop) g r c f :
  Forall (Forall Q) g -> (forall cell, Q cell -> Q (f cell)) ->
  Forall (Forall Q) (set_cell g r c f).
Proof.
  intros Hg Hf. unfold set_cell. apply Forall_update_nth; [exact Hg |].
  intros rw Hrw. apply Forall_update_nth; [exact Hrw | exact Hf].
Qed.

Lemma place_image_exist pe m r c info :
  images_exist pe m -> pe (path info) = true ->
  images_exist pe (snd (place_image m r c info)).
Proof.
  intros (Hu & Hn & Hg) Hp. unfold place_image.
  destruct (negb (can_place_image m r c info)); [exact (conj Hu (conj Hn Hg)) |].
  simpl. split; [| split].
  - destruct (img_in info (used_images m)); [exact Hu |].
    apply Forall_app; split; [exact Hu | constructor; [exact Hp | constructor]].
  - destruct (img_in info (unused_images m)); [apply Forall_list_remove |]; exact Hn.
  - assert (Hocc : forall main mp cell,
      (forall i, image cell = Some i -> pe (path i) = true) ->
      forall i, image (occupy info main mp cell) = Some i -> pe (path i) = true).
    { intros main mp cell _ i Hi. injection Hi as <-. exact Hp. }
    unfold place_cells. destruct (orientation info) eqn:Ho.
    + apply Forall_set_cell; [exact Hg | apply Hocc].
    + rewrite range_0_3. cbn [fold_left].
      repeat (apply Forall_set_cell; [| apply Hocc]). exact Hg.
Qed.

Lemma load_pool_entry_exist pe to_used dir data m m' u :
  load_pool_entry pe to_used dir data m = (m', inr u) ->
  images_exist pe (st_model m) -> images_exist pe (st_model m').
Proof.
  unfold load_pool_entry.
  destruct (deserialize_image data dir) as [info |];
    [| unfold pret; intros H; injection H as <- _; auto].
  destruct (pe (path info)) eqn:Hp; [| unfold pret; intros H; injection H as <- _; auto].
  intros H (Hu & Hn & Hg).
  apply pbind_success in H as (m1 & a & H1 & H2). injection H1 as <- <-.
  destruct to_used; injection H2 as <- _; simpl; (split; [| split]); try assumption;
    apply Forall_app; (split; [assumption | constructor; [exact Hp | constructor]]).
Qed.

Ltac peel H :=
  let m1 := fresh "m" in let a1 := fresh "a" in let H1 := fresh "Hc" in
  apply pbind_success in H; destruct H as (m1 & a1 & H1 & H); cbv beta in H.

Lemma restore_cell_exist pe dir r c data m m' u :
  restore_cell pe dir r c data m = (m', inr u) ->
  images_exist pe (st_model m) -> images_exist pe (st_model m').
Proof.
  unfold restore_cell. intros H HI.
  peel H. injection Hc as <- <-.
  destruct ((c >=? cols (st_model m)) || negb (json_truthy data)).
  { injection H as <- _. exact HI. }
  peel H. apply plift_success in Hc as [-> _].
  destruct (json_truthy a); [| injection H as <- _; exact HI].
  destruct (deserialize_image a dir) as [info |]; [| injection H as <- _; exact HI].
  destruct (pe (path info)) eqn:Hp; [| injection H as <- _; exact HI].
  peel H. injection Hc as <- <-.
  peel H. injection Hc as <- _.
  peel H. injection Hc as <- <-.
  injection H as <- _.
  apply place_image_exist; [| exact Hp].
  destruct HI as (Hu & Hn & Hg). simpl. split; [| split; [| exact Hg]].
  - destruct (img_in info (used_images (st_model m))); [exact Hu |].
    apply Forall_app; split; [exact Hu | constructor; [exact Hp | constructor]].
  - destruct (img_in info (unused_images (st_model m))); [apply Forall_list_remove |]; exact Hn.
Qed.

Lemma py_resize_grid_success rv cv m m' u :
  py_resize_grid rv cv m = (m', inr u) ->
  exists nr nc, st_model m' = resize_grid (st_model m) nr nc.
Proof.
  unfold py_resize_grid. intros H.
  destruct (py_int rv) as [r |]; [| discriminate].
  destruct (py_int cv) as [c |]; [injection H as <- _; simpl; eauto |].
  destruct (r <=? 0); [injection H as <- _; simpl; eauto | discriminate].
Qed.

Lemma initialize_grid_no_image nr nc :
  Forall (Forall (fun cell => image cell = None)) (initialize_grid nr nc).
Proof.
  unfold initialize_grid. apply Forall_forall. intros rw Hrw.
  apply in_map_iff in Hrw as (r & <- & _). apply Forall_forall. intros cell Hc.
  apply in_map_iff in Hc as (c & <- & _). reflexivity.
Qed.

Ltac peel_as H m1 a1 H1 :=
  apply pbind_success in H; destruct H as (m1 & a1 & H1 & H); cbv beta in H.

Lemma apply_state_body_exist pe doc m m' b :
  apply_state_body pe doc m = (m', inr b) -> images_exist pe (st_model m').
Proof.
  unfold apply_state_body. intros H.
  peel H. apply plift_success in Hc as [-> _].
  peel H. apply plift_success in Hc as [-> _].
  peel H. apply plift_success in Hc as [-> _].
  peel_as H m1 u1 Hc. apply py_resize_grid_success in Hc as (nr & nc & Hm1).
  assert (Hg1 : Forall (Forall (fun cell => image cell = None)) (grid (st_model m1)))
    by (rewrite Hm1; apply initialize_grid_no_image).
  clear Hm1.
  peel_as H m1' dstr Hc. apply plift_success in Hc as [-> _].
  peel_as H m2 d Hc.
  assert (Hm2 : m2 = m1).
  { unfold pret, praise in Hc.
    destruct (json_truthy dstr); [destruct dstr |]; injection Hc as <- _; reflexivity. }
  subst m2. clear Hc.
  peel_as H m3 u3 Hc.
  assert (Hg3 : Forall (Forall (fun cell => image cell = None)) (grid (st_model m3))).
  { destruct d as [s |].
    - peel_as Hc m4 a4 Hc4. injection Hc4 as <- <-. injection Hc as <- _. exact Hg1.
    - unfold pret in Hc. injection Hc as <- _. exact Hg1. }
  clear Hc.
  peel H. apply plift_success in Hc as [-> _].
  peel_as H m5 a5 Hc. injection Hc as <- <-.
  peel_as H m6 u6 Hc. injection Hc as <- _.
  assert (HI6 : images_exist pe (st_model (mkPyState (with_pools (st_model m3) [] []) (st_dims m3)))).
  { split; [constructor |]. split; [constructor |]. simpl.
    eapply Forall_impl; [| exact Hg3]. intros rw Hrw. eapply Forall_impl; [| exact Hrw].
    intros cell Hcell i Hi. congruence. }
  peel H. apply plift_success in Hc as [-> _].
  peel H. apply plift_success in Hc as [-> _].
  peel_as H m7 u7 Hc.
  assert (HI7 : images_exist pe (st_model m7)).
  { revert Hc HI6. apply (pfor_success (fun s => images_exist pe (st_model s))). intros x mm mm' uu _. apply load_pool_entry_exist. }
  clear Hc.
  peel H. apply plift_success in Hc as [-> _].
  peel H. apply plift_success in Hc as [-> _].
  peel_as H m8 u8 Hc.
  assert (HI8 : images_exist pe (st_model m8)).
  { revert Hc HI7. apply (pfor_success (fun s => images_exist pe (st_model s))). intros x mm mm' uu _. apply load_pool_entry_exist. }
  clear Hc.
  peel H. apply plift_success in Hc as [-> _].
  peel H. apply plift_success in Hc as [-> _].
  peel_as H m9 a9 Hc. injection Hc as <- <-.
  peel_as H m10 u10 Hc.
  unfold pret in H. injection H as <- _.
  revert Hc HI8. apply (pfor_success (fun s => images_exist pe (st_model s))).
  intros rr mm mm' uu _ Hrow.
  peel_as Hrow m11 row_l Hc. apply plift_success in Hc as [-> _].
  revert Hrow. apply (pfor_success (fun s => images_exist pe (st_model s))). intros cc mm1 mm1' uu1 _. apply restore_cell_exist.
Qed.

Lemma cell_at_in_grid (P : GridCell -> Prop) g r c :
  Forall (Forall P) g -> P (new_cell r c) -> P (cell_at g r c).
Proof.
  intros Hg Hd. unfold cell_at.
  destruct (nth_in_or_default (Z.to_nat r) g []) as [Hin | ->].
  - rewrite Forall_forall in Hg. specialize (Hg _ Hin). rewrite Forall_forall in Hg.
    destruct (nth_in_or_default (Z.to_nat c) (nth (Z.to_nat r) g []) (new_cell r c))
      as [Hin' | ->]; [apply Hg, Hin' | exact Hd].
  - destruct (Z.to_nat c); exact Hd.
Qed.

(** X15: when [apply_state_to_model] succeeds, every image of the used pool, of the unused pool and of the grid has a path that exists. *)
Theorem apply_state_success_paths_exist (path_exists : string -> bool) (s : PyState)
  (state_data : json) (s' : PyState)
  (Hok : apply_state_to_model path_exists s state_data = (true, s')) :
  Forall (fun i => path_exists (path i) = true) (used_images (st_model s')) /\
  Forall (fun i => path_exists (path i) = true) (unused_images (st_model s')) /\
  forall r c i, image (cell_at (grid (st_model s')) r c) = Some i -> path_exists (path i) = true.
Proof.
  unfold apply_state_to_model in Hok.
  destruct (apply_state_body path_exists state_data s) as [m1 [e | b]] eqn:Hb;
    injection Hok as Hb' <-; [discriminate |].
  destruct (apply_state_body_exist _ _ _ _ _ Hb) as (Hu & Hn & Hg).
  split; [exact Hu |]. split; [exact Hn |].
  intros r c. apply (cell_at_in_grid _ _ r c Hg). intros i Hi; discriminate.
Qed.

Lemma apply_state_success_paths_exist_witness :
  let pe := fun p => String.eqb p "/photos/p1.jpg" in
  let doc := JObj [("images", JObj [("unused", JArr [serialize_image sample_portrait None;
                                                      serialize_image sample_landscape None])])]%string in
  let s0 := mkPyState (PuzzleModel_init 13 10) None in
  let s' := snd (apply_state_to_model pe s0 doc) in
  apply_state_to_model pe s0 doc = (true, s') /\
  unused_images (st_model s') = [sample_portrait] /\
  (Forall (fun i => pe (path i) = true) (used_images (st_model s')) /\
   Forall (fun i => pe (path i) = true) (unused_images (st_model s')) /\
   forall r c i, image (cell_at (grid (st_model s')) r c) = Some i -> pe (path i) = true).
Proof.
  intros pe doc s0 s'.
  assert (H : apply_state_to_model pe s0 doc = (true, s'))
    by (vm_compute; reflexivity).
  split; [exact H |]. split; [vm_compute; reflexivity |].
  exact (apply_state_success_paths_exist pe s0 doc s' H).
Defined.

Lemma can_place_vertical_cases m r c img :
  orientation img = VERTICAL ->
  can_place_image m r c img = false <->
  in_bounds m r c = false \/ rows m < r + VERTICAL_IMAGE_SPAN \/
  exists i, 0 <= i < VERTICAL_IMAGE_SPAN /\ is_occupied (cell_at (grid m) (r + i) c) = true.
Proof.
  intros Hv. unfold can_place_image, VERTICAL_IMAGE_SPAN. rewrite Hv.
  destruct (in_bounds m r c) eqn:Eb; cbn [negb]; [| split; [auto | reflexivity]].
  destruct (Z.geb_spec (r + 2) (rows m)).
  - split; [intros _; right; left; lia | reflexivity].
  - rewrite negb_false_iff, existsb_exists. split.
    + intros (i & Hi & Ho). right; right. exists i. apply in_range in Hi. auto.
    + intros [H1 | [H1 | (i & Hi & Ho)]]; [discriminate | lia |].
      exists i. split; [apply in_range; lia | exact Ho].
Qed.

(** X16: when the check of [_on_cell_clicked] finds an occupied cell holding an image in the Portrait span, [place_image] fails and leaves the model unchanged, so the replacement it asks to confirm never happens. *)
Theorem will_replace_place_fails (m : PuzzleModel) (row col : Z) (img : ImageInfo)
  (Hw : will_replace m row col img = true) :
  place_image m row col img = (false, m).
Proof.
  unfold will_replace in Hw. destruct (orientation img) eqn:Hv; [discriminate |].
  apply existsb_exists in Hw as (r & Hr & Hc). apply in_range in Hr.
  unfold get_cell in Hc. destruct (in_bounds m r col) eqn:Eb; [| discriminate].
  apply andb_prop in Hc as [Ho _].
  assert (Hf : can_place_image m row col img = false).
  { apply can_place_vertical_cases; [exact Hv |].
    destruct (in_bounds m row col) eqn:Eb0; [| left; reflexivity].
    right. destruct (Z.ltb_spec (rows m) (row + VERTICAL_IMAGE_SPAN)); [left; lia |].
    right. exists (r - row). unfold VERTICAL_IMAGE_SPAN in *.
    split; [lia |]. replace (row + (r - row)) with r by lia. exact Ho. }
  unfold place_image. rewrite Hf. reflexivity.
Qed.

Lemma will_replace_place_fails_witness :
  let m := snd (place_image (PuzzleModel_init 3 1) 1 0 sample_landscape) in
  will_replace m 0 0 sample_portrait = true /\
  place_image m 0 0 sample_portrait = (false, m).
Proof.
  intros m. split; [vm_compute; reflexivity |].
  apply will_replace_place_fails. vm_compute. reflexivity.
Defined.

(** X18: with the spin box ranges of the region editor, [_update_selected_area] builds a non-empty selection whose cells are exactly the requested cells that lie inside the grid. *)
Theorem update_selected_area_in_grid (m : PuzzleModel) (start_row start_col nrows ncols : Z)
  (Hsr : 0 <= start_row <= rows m - 1) (Hsc : 0 <= start_col <= cols m - 1)
  (Hnr : 1 <= nrows <= rows m) (Hnc : 1 <= ncols <= cols m) :
  let q := update_selected_area m start_row start_col nrows ncols in
  qisNull q = false /\
  (forall r c, In (r, c) (region_cells q) <->
     start_row <= r < start_row + nrows /\ start_col <= c < start_col + ncols /\
     in_bounds m r c = true).
Proof.
  intros q. split.
  - unfold q, update_selected_area, qisNull; simpl.
    destruct (Z.eqb_spec (Z.min (start_col + ncols) (cols m) - start_col) 0); [lia | reflexivity].
  - intros r c. rewrite in_region_cells, in_bounds_iff.
    unfold q, update_selected_area; simpl. lia.
Qed.

Lemma update_selected_area_in_grid_witness :
  let q := update_selected_area (PuzzleModel_init 4 3) 2 1 3 2 in
  qisNull q = false /\
  (forall r c, In (r, c) (region_cells q) <->
     2 <= r < 2 + 3 /\ 1 <= c < 1 + 2 /\ in_bounds (PuzzleModel_init 4 3) r c = true).
Proof.
  apply update_selected_area_in_grid; simpl; lia.
Defined.
